(** * nowmcp: incident tools, their input schemas and the encoded-query builder

    A shallow embedding of the ServiceNow incident tools
    (src/tools/incident-tools.ts, in its schema-validated and in its earlier
    unvalidated form), of the input schemas (src/schemas/incident-schemas.ts)
    and of the query part of the REST client
    (src/services/servicenow-client.ts), followed by the properties the
    specification states about them.

    Conventions.
    - A JavaScript string is a [string]; the only places where the code looks
      inside a string are a length test against 1 and a regular expression
      over ASCII hexadecimal digits, and both answer the same on a UTF-16 and
      on a UTF-8 reading of the text.
    - A JavaScript number is a rational [Q] (every finite double is one; a
      JSON payload carries no NaN and no infinity).
    - An object is the list of its own enumerable properties in enumeration
      order; a property read takes the first entry of a key. *)

From Stdlib Require Import String Ascii List Bool Arith ZArith QArith Lia.
From Stdlib Require Import DecimalString.
Import ListNotations.

Local Close Scope Q_scope.
Local Open Scope string_scope.
Local Open Scope list_scope.

Infix "+++" := String.append (right associativity, at level 60).

Set Warnings "-register-all".

(* ================================================================= *)
(** ** JavaScript values *)

Inductive jsval : Type :=
| VUndefined
| VNull
| VBool (b : bool)
| VNum (q : Q)
| VStr (s : string)
| VArr (items : list jsval)
| VObj (entries : list (string * jsval)).

(** An object as the tools see it once its shape is known. *)
Definition obj : Type := list (string * jsval).

Fixpoint assoc {A : Type} (k : string) (entries : list (string * A)) : option A :=
  match entries with
  | [] => None
  | (k', v) :: rest => if String.eqb k k' then Some v else assoc k rest
  end.

(** [k in o] *)
Definition has_key {A : Type} (k : string) (entries : list (string * A)) : bool :=
  match assoc k entries with Some _ => true | None => false end.

(** [v[k]]: [undefined] when [v] has no such own property. *)
Definition prop (k : string) (v : jsval) : jsval :=
  match v with
  | VObj entries => match assoc k entries with Some x => x | None => VUndefined end
  | _ => VUndefined
  end.

Definition key_in (k : string) (v : jsval) : bool :=
  match v with
  | VObj entries => has_key k entries
  | _ => false
  end.

(** [const { k1, k2, ...rest } = o]: the rest object keeps every own
    property whose key is not among the named ones, in order. *)
Definition rest_without (names : list string) (o : obj) : obj :=
  filter (fun e => negb (existsb (String.eqb (fst e)) names)) o.

(* ----------------------------------------------------------------- *)
(** *** Text *)

Definition nl : string := String "010"%char EmptyString.
Definition dquote : string := String "034"%char EmptyString.
(** U+2713 CHECK MARK, as its three UTF-8 bytes. *)
Definition check_mark : string :=
  String "226"%char (String "156"%char (String "147"%char EmptyString)).

(** [parts.join(sep)] on an array of strings. *)
Definition join (sep : string) (parts : list string) : string :=
  String.concat sep parts.

(** The text of a non-negative integer that is an array index or an array
    length: plain decimal digits. *)
Definition nat_text (n : nat) : string :=
  NilZero.string_of_uint (Nat.to_uint n).

Fixpoint count_char (c : ascii) (s : string) : nat :=
  match s with
  | EmptyString => 0
  | String c' s' => (if Ascii.eqb c c' then 1 else 0) + count_char c s'
  end.

Definition caret : ascii := "^"%char.

(** Truthiness of a string: [if (s)]. *)
Definition truthy_string (s : string) : bool :=
  match s with EmptyString => false | _ => true end.

(* ----------------------------------------------------------------- *)
(** *** Numbers *)

Definition Q_is_integer (q : Q) : bool :=
  (Z.eqb (Z.modulo (Qnum q) (Z.pos (Qden q))) 0)%Z.

Definition Q_ltb (a b : Q) : bool := negb (Qle_bool b a).

(** [Number.MAX_SAFE_INTEGER] *)
Definition MAX_SAFE_INTEGER : Q := inject_Z (2 ^ 53 - 1)%Z.

Definition Q_is_safe (q : Q) : bool :=
  Qle_bool (Qopp MAX_SAFE_INTEGER) q && Qle_bool q MAX_SAFE_INTEGER.

(** Truthiness of a number: [if (n)]. *)
Definition truthy_number (q : Q) : bool := negb (Qeq_bool q 0%Q).

(* ================================================================= *)
(** ** Data of the REST client (src/types/servicenow.ts) *)

(** [string | number | boolean] *)
Inductive scalar : Type :=
| SString (s : string)
| SNumber (q : Q)
| SBoolean (b : bool).

(** The operators of [QueryOperatorSchema]; each is a string literal in the
    source, given by [operator_text]. *)
Inductive QueryOperator : Type :=
| EQ | NEQ | GT | GTE | LT | LTE
| LIKE | STARTSWITH | ENDSWITH | CONTAINS
| IN | NOT_IN | IS_EMPTY | IS_NOT_EMPTY.

Definition operator_text (op : QueryOperator) : string :=
  match op with
  | EQ => "=" | NEQ => "!=" | GT => ">" | GTE => ">=" | LT => "<" | LTE => "<="
  | LIKE => "LIKE" | STARTSWITH => "STARTSWITH" | ENDSWITH => "ENDSWITH"
  | CONTAINS => "CONTAINS"
  | IN => "IN" | NOT_IN => "NOT IN" | IS_EMPTY => "ISEMPTY"
  | IS_NOT_EMPTY => "ISNOTEMPTY"
  end.

Definition all_operators : list QueryOperator :=
  [EQ; NEQ; GT; GTE; LT; LTE; LIKE; STARTSWITH; ENDSWITH; CONTAINS;
   IN; NOT_IN; IS_EMPTY; IS_NOT_EMPTY].

(** [QueryValue]: a plain scalar, or [{ operator, value }]. *)
Inductive QueryValue : Type :=
| Literal (value : scalar)
| Operator (operator : QueryOperator) (value : scalar).

(** [QueryFilter]: field name to value, in the object's enumeration order. *)
Definition QueryFilter : Type := list (string * QueryValue).

Record TableQueryOptions : Type := {
  limit : option Q;
  offset : option Q;
  fields : option (list string);
  displayValue : option scalar;
  excludeReferenceLink : option bool
}.

(** A record of the incident table as the store returns it
    ([Incident extends ServiceNowRecord]). *)
Record Incident : Type := {
  sys_id : string;
  number : string;
  others : obj
}.

(* ================================================================= *)
(** ** Validation issues *)

Inductive PathSeg : Type :=
| Key (k : string)
| Index (i : nat).

Inductive IssueCode : Type :=
| invalid_type (expected : string)
| too_small (minimum : Q)
| too_big (maximum : Q)
| invalid_value (options : list string)
| invalid_union
| custom.

(** The part of a [ZodError] issue that the tools read, with its code. *)
Record ZodIssue : Type := {
  code : IssueCode;
  path : list PathSeg;
  message : string
}.

Inductive ParseResult (A : Type) : Type :=
| Valid (a : A)
| Invalid (issues : list ZodIssue).
Arguments Valid {A} a.
Arguments Invalid {A} issues.

Definition issues_of {A : Type} (r : ParseResult A) : list ZodIssue :=
  match r with Valid _ => [] | Invalid issues => issues end.

Definition is_valid {A : Type} (r : ParseResult A) : bool :=
  match r with Valid _ => true | Invalid _ => false end.

(* ================================================================= *)
(** ** Types of the validated tool inputs (z.infer of the schemas) *)

Module IncidentQueryInput.
Record t : Type := mk {
  filter : option QueryFilter;
  limit : Q;
  fields : option (list string);
  instance : option string
}.
End IncidentQueryInput.

Module IncidentGetInput.
Record t : Type := mk {
  identifier : string;
  fields : option (list string);
  instance : option string
}.
End IncidentGetInput.

Module IncidentDeleteInput.
Record t : Type := mk {
  identifier : string;
  confirm : bool;
  instance : option string
}.
End IncidentDeleteInput.

(* ================================================================= *)
(** ** Vocabulary tables (the maps inside the enum transforms) *)

Definition stateMap : list (string * string) :=
  [("New", "1"); ("In Progress", "2"); ("On Hold", "3");
   ("Resolved", "6"); ("Closed", "7"); ("Canceled", "8")].

Definition priorityMap : list (string * string) :=
  [("Critical", "1"); ("High", "2"); ("Moderate", "3");
   ("Low", "4"); ("Planning", "5")].

Definition urgencyMap : list (string * string) :=
  [("High", "1"); ("Medium", "2"); ("Low", "3")].

(** [map[val] || val], for a [val] that passed the enum in front of the
    transform (so no inherited property of the object literal is read). *)
Definition mapped_or_self (m : list (string * string)) (val : string) : string :=
  match assoc val m with
  | Some c => if truthy_string c then c else val
  | None => val
  end.

Definition state_values : list string :=
  ["1"; "2"; "3"; "6"; "7"; "8";
   "New"; "In Progress"; "On Hold"; "Resolved"; "Closed"; "Canceled"].

Definition priority_values : list string :=
  ["1"; "2"; "3"; "4"; "5";
   "Critical"; "High"; "Moderate"; "Low"; "Planning"].

Definition urgency_values : list string :=
  ["1"; "2"; "3"; "High"; "Medium"; "Low"].

(** The three kinds of classification field; urgency and impact share one
    enum. *)
Inductive FieldKind : Type := state | priority | urgency_or_impact.

(** The five incident tools, by the names the server dispatches on. *)
Inductive Operation : Type :=
| incident_query
| incident_get
| incident_create
| incident_update
| incident_delete.

Definition INCIDENT_TABLE : string := "incident".

(** [/^[a-f0-9]{32}$/i.test(identifier)] *)
Definition is_hex_digit (c : ascii) : bool :=
  let n := nat_of_ascii c in
  (Nat.leb 48 n && Nat.leb n 57)
  || (Nat.leb 97 n && Nat.leb n 102)
  || (Nat.leb 65 n && Nat.leb n 70).

Definition is_sys_id (identifier : string) : bool :=
  Nat.eqb (String.length identifier) 32
  && forallb is_hex_digit (list_ascii_of_string identifier).

(* ================================================================= *)
(** ** The record store, seen from the tools

    A tool is a program that returns, throws, or awaits one of the five
    client methods and goes on with what the store answered.  The tools have
    no [try] around an [await]: a rejected call ends the tool with that
    rejection. *)

Inductive tool (A : Type) : Type :=
| Ret (a : A)
| Throw (e : string)
| QueryTable (tableName : string) (filter : option QueryFilter)
    (options : TableQueryOptions) (k : list Incident -> tool A)
| GetRecord (tableName : string) (sysId : string)
    (options : TableQueryOptions) (k : Incident -> tool A)
| CreateRecord (tableName : string) (data : obj) (k : Incident -> tool A)
| UpdateRecord (tableName : string) (sysId : string) (data : obj)
    (k : Incident -> tool A)
| DeleteRecord (tableName : string) (sysId : string) (k : unit -> tool A).
Arguments Ret {A} a.
Arguments Throw {A} e.
Arguments QueryTable {A} tableName filter options k.
Arguments GetRecord {A} tableName sysId options k.
Arguments CreateRecord {A} tableName data k.
Arguments UpdateRecord {A} tableName sysId data k.
Arguments DeleteRecord {A} tableName sysId k.

Fixpoint bind {A B : Type} (m : tool A) (f : A -> tool B) : tool B :=
  match m with
  | Ret a => f a
  | Throw e => Throw e
  | QueryTable t fl o k => QueryTable t fl o (fun r => bind (k r) f)
  | GetRecord t i o k => GetRecord t i o (fun r => bind (k r) f)
  | CreateRecord t d k => CreateRecord t d (fun r => bind (k r) f)
  | UpdateRecord t i d k => UpdateRecord t i d (fun r => bind (k r) f)
  | DeleteRecord t i k => DeleteRecord t i (fun r => bind (k r) f)
  end.

Notation "x <- m ;; k" := (bind m (fun x => k))
  (at level 61, m at next level, right associativity).

(** The client methods, awaited. *)
Definition queryTable (tableName : string) (filter : option QueryFilter)
    (options : TableQueryOptions) : tool (list Incident) :=
  QueryTable tableName filter options Ret.

Definition getRecord (tableName sysId : string) (options : TableQueryOptions)
    : tool Incident :=
  GetRecord tableName sysId options Ret.

Definition createRecord (tableName : string) (data : obj) : tool Incident :=
  CreateRecord tableName data Ret.

Definition updateRecord (tableName sysId : string) (data : obj) : tool Incident :=
  UpdateRecord tableName sysId data Ret.

Definition deleteRecord (tableName sysId : string) : tool unit :=
  DeleteRecord tableName sysId Ret.

(** [{ limit, fields }] as the tools write their options. *)
Definition options_of (l : option Q) (fs : option (list string)) : TableQueryOptions :=
  {| limit := l; offset := None; fields := fs;
     displayValue := None; excludeReferenceLink := None |}.

(** A call as the store sees it. *)
Inductive Call : Type :=
| CallQueryTable (tableName : string) (filter : option QueryFilter)
    (options : TableQueryOptions)
| CallGetRecord (tableName : string) (sysId : string) (options : TableQueryOptions)
| CallCreateRecord (tableName : string) (data : obj)
| CallUpdateRecord (tableName : string) (sysId : string) (data : obj)
| CallDeleteRecord (tableName : string) (sysId : string).

Definition is_query (c : Call) : bool :=
  match c with CallQueryTable _ _ _ => true | _ => false end.

(** The lookup queries among the calls of a run. *)
Definition lookups (calls : list Call) : list Call := filter is_query calls.

(** A store: what it answers to each call in a state of its own type, an
    error message (the rejection of the client method) or the result. *)
Record Store (S : Type) : Type := {
  on_queryTable : string -> option QueryFilter -> TableQueryOptions -> S ->
                  (string + list Incident) * S;
  on_getRecord : string -> string -> TableQueryOptions -> S ->
                 (string + Incident) * S;
  on_createRecord : string -> obj -> S -> (string + Incident) * S;
  on_updateRecord : string -> string -> obj -> S -> (string + Incident) * S;
  on_deleteRecord : string -> string -> S -> (string + unit) * S
}.
Arguments on_queryTable {S} _ _ _ _ _.
Arguments on_getRecord {S} _ _ _ _ _.
Arguments on_createRecord {S} _ _ _ _.
Arguments on_updateRecord {S} _ _ _ _ _.
Arguments on_deleteRecord {S} _ _ _ _.

Inductive Outcome (A : Type) : Type :=
| Returned (a : A)
| Rejected (e : string).
Arguments Returned {A} a.
Arguments Rejected {A} e.

Record Run (S A : Type) : Type := {
  calls : list Call;
  outcome : Outcome A;
  final : S
}.
Arguments calls {S A} r.
Arguments outcome {S A} r.
Arguments final {S A} r.

Definition after {S A : Type} (c : Call) (r : Run S A) : Run S A :=
  {| calls := c :: calls r; outcome := outcome r; final := final r |}.

Definition rejected {S A : Type} (c : Call) (e : string) (s : S) : Run S A :=
  {| calls := [c]; outcome := Rejected e; final := s |}.

Fixpoint run {S A : Type} (st : Store S) (p : tool A) (s : S) : Run S A :=
  match p with
  | Ret a => {| calls := []; outcome := Returned a; final := s |}
  | Throw e => {| calls := []; outcome := Rejected e; final := s |}
  | QueryTable t fl o k =>
      match on_queryTable st t fl o s with
      | (inl e, s') => rejected (CallQueryTable t fl o) e s'
      | (inr r, s') => after (CallQueryTable t fl o) (run st (k r) s')
      end
  | GetRecord t i o k =>
      match on_getRecord st t i o s with
      | (inl e, s') => rejected (CallGetRecord t i o) e s'
      | (inr r, s') => after (CallGetRecord t i o) (run st (k r) s')
      end
  | CreateRecord t d k =>
      match on_createRecord st t d s with
      | (inl e, s') => rejected (CallCreateRecord t d) e s'
      | (inr r, s') => after (CallCreateRecord t d) (run st (k r) s')
      end
  | UpdateRecord t i d k =>
      match on_updateRecord st t i d s with
      | (inl e, s') => rejected (CallUpdateRecord t i d) e s'
      | (inr r, s') => after (CallUpdateRecord t i d) (run st (k r) s')
      end
  | DeleteRecord t i k =>
      match on_deleteRecord st t i s with
      | (inl e, s') => rejected (CallDeleteRecord t i) e s'
      | (inr r, s') => after (CallDeleteRecord t i) (run st (k r) s')
      end
  end.

(** A store with one incident, INC0010001, and no state: used to run the
    tools on concrete payloads. *)
Definition sample_incident : Incident :=
  {| sys_id := "0123456789abcdef0123456789abcdef";
     number := "INC0010001";
     others := [] |}.

Definition sample_store : Store unit :=
  {| on_queryTable := fun _ fl _ s =>
       match fl with
       | Some [("number", Literal (SString "INC0010001"))] =>
           (inr [sample_incident], s)
       | _ => (inr [], s)
       end;
     on_getRecord := fun _ i _ s =>
       if String.eqb i (sys_id sample_incident) then (inr sample_incident, s)
       else (inl "No Record found", s);
     on_createRecord := fun _ _ s => (inr sample_incident, s);
     on_updateRecord := fun _ _ _ s => (inr sample_incident, s);
     on_deleteRecord := fun _ _ s => (inr tt, s) |}.

(* ================================================================= *)
(** ** Dynamic values in conditions and template literals *)

(** [if (v)] on a value of any type. *)
Definition truthy (v : jsval) : bool :=
  match v with
  | VUndefined => false
  | VNull => false
  | VBool b => b
  | VNum q => truthy_number q
  | VStr s => truthy_string s
  | VArr _ => true
  | VObj _ => true
  end.

(* ================================================================= *)
(** ** Configuration before validation was added (src/config/index.ts)

    The environment is read through [env]; a variable that is not set is
    [None].  An instance name is one of the four strings of
    [InstanceName]. *)

Module Config.

Record ServiceNowInstanceConfig : Type := {
  url : string;
  username : string;
  password : string
}.

(** [config.instances]: one optional entry for each name. *)
Record Instances : Type := {
  primary : option ServiceNowInstanceConfig;
  dev : option ServiceNowInstanceConfig;
  test : option ServiceNowInstanceConfig;
  prod : option ServiceNowInstanceConfig
}.

Record ServiceNowConfig : Type := {
  instances : Instances;
  defaultInstance : string
}.

Definition names : list string := ["primary"; "dev"; "test"; "prod"].

(** The own property [name] of [config.instances], an object literal with
    the four keys: the value of the key, and [None] when that value is
    [undefined] or when [name] is none of the four keys.  This is all of
    [instances[name]] when [name] is one of the four. *)
Definition instance_of (i : Instances) (name : string) : option ServiceNowInstanceConfig :=
  if String.eqb name "primary" then primary i
  else if String.eqb name "dev" then dev i
  else if String.eqb name "test" then test i
  else if String.eqb name "prod" then prod i
  else None.

(** [url.replace(/\/$/, '')]: a slash at the very end is removed. *)
Fixpoint remove_trailing_slash (s : string) : string :=
  match s with
  | EmptyString => EmptyString
  | String c EmptyString => if Ascii.eqb c "/"%char then EmptyString else s
  | String c rest => String c (remove_trailing_slash rest)
  end.

(** [!x] on a variable of the environment. *)
Definition missing (x : option string) : bool :=
  match x with
  | Some v => negb (truthy_string v)
  | None => true
  end.

Definition loadInstanceConfig (env : string -> option string) (prefix : string)
    : option ServiceNowInstanceConfig :=
  let url_ := env (prefix +++ "_URL") in
  let username_ := env (prefix +++ "_USERNAME") in
  let password_ := env (prefix +++ "_PASSWORD") in
  match url_, username_, password_ with
  | Some u, Some n, Some w =>
      if missing url_ || missing username_ || missing password_ then None
      else Some {| url := remove_trailing_slash u; username := n; password := w |}
  | _, _, _ => None
  end.

Definition is_configured (x : option ServiceNowInstanceConfig) : bool :=
  match x with Some _ => true | None => false end.

(** The result is the configuration, or the message of the error thrown. *)
Definition loadConfig (env : string -> option string) : string + ServiceNowConfig :=
  let primary_ := loadInstanceConfig env "SERVICENOW_INSTANCE" in
  let dev_ := loadInstanceConfig env "SERVICENOW_DEV" in
  let test_ := loadInstanceConfig env "SERVICENOW_TEST" in
  let prod_ := loadInstanceConfig env "SERVICENOW_PROD" in
  let defaultInstanceEnv := env "SERVICENOW_DEFAULT_INSTANCE" in
  let defaultInstance_ :=
    match defaultInstanceEnv with
    | Some d =>
        if truthy_string d && existsb (String.eqb d) names then d else "primary"
    | None => "primary"
    end in
  let config :=
    {| instances := {| primary := primary_; dev := dev_;
                       test := test_; prod := prod_ |};
       defaultInstance := defaultInstance_ |} in
  let hasAnyInstance :=
    existsb is_configured [primary_; dev_; test_; prod_] in
  if negb hasAnyInstance then
    inl "No ServiceNow instance configured. Please set SERVICENOW_INSTANCE_URL, SERVICENOW_USERNAME, and SERVICENOW_PASSWORD environment variables."
  else
    match instance_of (instances config) defaultInstance_ with
    | None =>
        inl ("Default instance " +++ dquote +++ defaultInstance_ +++ dquote
             +++ " is not configured. Please configure it or change SERVICENOW_DEFAULT_INSTANCE.")
    | Some _ => inr config
    end.

(** [Object.keys(config.instances).filter(k => config.instances[k])] *)
Definition available (config : ServiceNowConfig) : list string :=
  filter (fun k => is_configured (instance_of (instances config) k)) names.

(** The property names that a plain object inherits from
    [Object.prototype].  The read [o[name]] of a name that is no own key
    of [o] finds the inherited value, and each of these values is truthy
    (a function, or for [__proto__] the prototype itself). *)
Definition Object_prototype_names : list string :=
  ["constructor"; "__defineGetter__"; "__defineSetter__"; "hasOwnProperty";
   "__lookupGetter__"; "__lookupSetter__"; "isPrototypeOf";
   "propertyIsEnumerable"; "toString"; "valueOf"; "__proto__";
   "toLocaleString"].

(** What [getInstanceConfig] returns: an instance of the configuration,
    or, asked for a name of [Object.prototype], the inherited value of
    that name, which the test [!instance] lets through. *)
Inductive Found : Type :=
| Instance (instance : ServiceNowInstanceConfig)
| Inherited (name : string).

(** [instanceName] is [None] when the argument is left out.  The read
    [config.instances[name]] is the own property when there is one with a
    value, and otherwise what [Object.prototype] has under that name. *)
Definition getInstanceConfig (config : ServiceNowConfig)
    (instanceName : option string) : string + Found :=
  let name :=
    match instanceName with
    | Some n => if truthy_string n then n else defaultInstance config
    | None => defaultInstance config
    end in
  match instance_of (instances config) name with
  | Some instance => inr (Instance instance)
  | None =>
      if existsb (String.eqb name) Object_prototype_names then
        inr (Inherited name)
      else
        inl ("ServiceNow instance " +++ dquote +++ name +++ dquote
             +++ " is not configured. Available instances: "
             +++ join ", " (available config))
  end.

(** The variables that configure the instance of a name. *)
Definition prefix_of (name : string) : string :=
  if String.eqb name "primary" then "SERVICENOW_INSTANCE"
  else if String.eqb name "dev" then "SERVICENOW_DEV"
  else if String.eqb name "test" then "SERVICENOW_TEST"
  else "SERVICENOW_PROD".

(** An environment with the primary instance only, to run the loader. *)
Definition sample_env (k : string) : option string :=
  if String.eqb k "SERVICENOW_INSTANCE_URL" then Some "https://dev12345.service-now.com/"
  else if String.eqb k "SERVICENOW_INSTANCE_USERNAME" then Some "admin"
  else if String.eqb k "SERVICENOW_INSTANCE_PASSWORD" then Some "secret"
  else None.

End Config.

(* ================================================================= *)
(** ** Sample renderings

    The text JavaScript gives a number in a template literal, the text of
    [JSON.stringify] and the wording of the validation library's default
    messages are left open below (section variables).  The definitions here
    fix one choice of them, to run the tools on concrete payloads. *)

Definition sample_Number_toString (q : Q) : string :=
  NilZero.string_of_int (Z.to_int (Qnum q)).

Definition sample_JSON_stringify (incident : Incident) : string :=
  "{" +++ dquote +++ "number" +++ dquote +++ ":" +++
  dquote +++ number incident +++ dquote +++ "}".

Definition sample_JSON_stringify_all (incidents : list Incident) : string :=
  "[" +++ join "," (map sample_JSON_stringify incidents) +++ "]".

Definition sample_defaultMessage (c : IssueCode) (input : jsval) : string :=
  match c with
  | invalid_type expected => "Invalid input: expected " +++ expected
  | too_small _ => "Too small"
  | too_big _ => "Too big"
  | invalid_value _ => "Invalid option"
  | invalid_union => "Invalid input"
  | custom => "Invalid input"
  end.

Section Tools.

(** [`${n}`] for a number [n]. *)
Variable Number_toString : Q -> string.
(** [JSON.stringify(incident, null, 2)] and the same on an array. *)
Variable JSON_stringify : Incident -> string.
Variable JSON_stringify_all : list Incident -> string.
(** The validation library's message for an issue that carries no message
    of the schema's own. *)
Variable defaultMessage : IssueCode -> jsval -> string.

(* ================================================================= *)
(** ** The validation library, as far as the incident schemas use it

    The schemas are written against version 4 of the library (a record
    schema takes the key schema and the value schema, an error lists its
    [issues]), and its parse is modelled here for the combinators they use.
    [schema A] is a schema whose output type is [A]; it is run at a path on
    an input and either gives the output or the issues found.  An object, an
    array and a record parse every member and report the issues of all of
    them; a failed type test stops the checks of that one value. *)

Definition schema (A : Type) : Type := list PathSeg -> jsval -> ParseResult A.

Definition issue (c : IssueCode) (own_message : option string)
    (p : list PathSeg) (input : jsval) : ZodIssue :=
  {| code := c;
     path := p;
     message := match own_message with
                | Some m => m
                | None => defaultMessage c input
                end |}.

Definition z_string : schema string := fun p input =>
  match input with
  | VStr s => Valid s
  | _ => Invalid [issue (invalid_type "string") None p input]
  end.

Definition z_number : schema Q := fun p input =>
  match input with
  | VNum q => Valid q
  | _ => Invalid [issue (invalid_type "number") None p input]
  end.

Definition z_boolean : schema bool := fun p input =>
  match input with
  | VBool b => Valid b
  | _ => Invalid [issue (invalid_type "boolean") None p input]
  end.

(** A check added to a schema by [.min], [.max], [.int] or [.refine]: on a
    value of the right type it finds nothing, or an issue together with
    whether the checks after it still run. *)
Record Check (A : Type) : Type := {
  test : A -> option (IssueCode * bool);
  own_message : option string
}.
Arguments test {A} c a.
Arguments own_message {A} c.

Fixpoint run_checks {A : Type} (checks : list (Check A)) (a : A)
    (p : list PathSeg) (input : jsval) : list ZodIssue :=
  match checks with
  | [] => []
  | c :: rest =>
      match test c a with
      | None => run_checks rest a p input
      | Some (ic, continue) =>
          issue ic (own_message c) p input ::
          (if continue then run_checks rest a p input else [])
      end
  end.

Definition with_checks {A : Type} (base : schema A) (checks : list (Check A))
    : schema A := fun p input =>
  match base p input with
  | Invalid issues => Invalid issues
  | Valid a =>
      match run_checks checks a p input with
      | [] => Valid a
      | issues => Invalid issues
      end
  end.

(** [.min(n, message)] on a string *)
Definition min_length (n : nat) (msg : option string) : Check string :=
  {| test := fun s => if Nat.leb n (String.length s) then None
                      else Some (too_small (inject_Z (Z.of_nat n)), true);
     own_message := msg |}.

(** [.int()]: not an integer stops the later checks; an integer outside the
    safe range is reported and the later checks still run. *)
Definition int : Check Q :=
  {| test := fun q =>
       if negb (Q_is_integer q) then Some (invalid_type "int", false)
       else if Q_is_safe q then None
       else if Qle_bool 0 q then Some (too_big MAX_SAFE_INTEGER, true)
       else Some (too_small (Qopp MAX_SAFE_INTEGER), true);
     own_message := None |}.

(** [.min(n)] and [.max(n)] on a number *)
Definition min (n : Q) : Check Q :=
  {| test := fun q => if Q_ltb q n then Some (too_small n, true) else None;
     own_message := None |}.

Definition max (n : Q) : Check Q :=
  {| test := fun q => if Q_ltb n q then Some (too_big n, true) else None;
     own_message := None |}.

(** [.refine(f, { message })] *)
Definition refine {A : Type} (f : A -> bool) (msg : string) : Check A :=
  {| test := fun a => if f a then None else Some (custom, true);
     own_message := Some msg |}.

Definition z_enum (options : list string) : schema string := fun p input =>
  match input with
  | VStr s =>
      if existsb (String.eqb s) options then Valid s
      else Invalid [issue (invalid_value options) None p input]
  | _ => Invalid [issue (invalid_value options) None p input]
  end.

Definition transform {A B : Type} (s : schema A) (f : A -> B) : schema B :=
  fun p input =>
    match s p input with
    | Valid a => Valid (f a)
    | Invalid issues => Invalid issues
    end.

Definition optional {A : Type} (s : schema A) : schema (option A) :=
  fun p input =>
    match input with
    | VUndefined => Valid None
    | _ => transform s Some p input
    end.

Definition default {A : Type} (s : schema A) (d : A) : schema A :=
  fun p input =>
    match input with
    | VUndefined => Valid d
    | _ => s p input
    end.

(** The members of an array, each at its index; all are parsed. *)
Fixpoint parse_items {A : Type} (s : schema A) (p : list PathSeg) (i : nat)
    (items : list jsval) : list ZodIssue * list A :=
  match items with
  | [] => ([], [])
  | x :: rest =>
      let '(issues, out) := parse_items s p (S i) rest in
      match s (p ++ [Index i]) x with
      | Valid a => (issues, a :: out)
      | Invalid here => (here ++ issues, out)
      end
  end.

Definition z_array {A : Type} (s : schema A) : schema (list A) :=
  fun p input =>
    match input with
    | VArr items =>
        match parse_items s p 0 items with
        | ([], out) => Valid out
        | (issues, _) => Invalid issues
        end
    | _ => Invalid [issue (invalid_type "array") None p input]
    end.

(** The entries of a record, each at its key; all are parsed.  A key
    [__proto__] never becomes an own property of the output. *)
Fixpoint parse_entries {A : Type} (s : schema A) (p : list PathSeg)
    (entries : list (string * jsval)) : list ZodIssue * list (string * A) :=
  match entries with
  | [] => ([], [])
  | (k, x) :: rest =>
      let '(issues, out) := parse_entries s p rest in
      if String.eqb k "__proto__" then (issues, out)
      else
        match s (p ++ [Key k]) x with
        | Valid a => (issues, (k, a) :: out)
        | Invalid here => (here ++ issues, out)
        end
  end.

(** [z.record(z.string(), s)] *)
Definition z_record {A : Type} (s : schema A) : schema (list (string * A)) :=
  fun p input =>
    match input with
    | VObj entries =>
        match parse_entries s p entries with
        | ([], out) => Valid out
        | (issues, _) => Invalid issues
        end
    | _ => Invalid [issue (invalid_type "record") None p input]
    end.

(** [z.union([...])]: the first option that accepts the input; when none
    does, one issue at the path of the value. *)
Fixpoint first_valid {A : Type} (options : list (schema A))
    (p : list PathSeg) (input : jsval) : option A :=
  match options with
  | [] => None
  | s :: rest =>
      match s p input with
      | Valid a => Some a
      | Invalid _ => first_valid rest p input
      end
  end.

Definition z_union {A : Type} (options : list (schema A)) : schema A :=
  fun p input =>
    match first_valid options p input with
    | Some a => Valid a
    | None => Invalid [issue invalid_union None p input]
    end.

(** *** Objects with a typed output

    The fields of [z.object({...})] are parsed one after the other, each on
    the property of its key, and the issues of all of them are kept. *)

Definition fields_parser (A : Type) : Type :=
  list PathSeg -> jsval -> ParseResult A.

Definition build {A : Type} (a : A) : fields_parser A :=
  fun _ _ => Valid a.

Definition and_field {A B : Type} (f : fields_parser (A -> B)) (k : string)
    (s : schema A) : fields_parser B := fun p input =>
  match f p input, s (p ++ [Key k]) (prop k input) with
  | Valid g, Valid a => Valid (g a)
  | Valid _, Invalid issues => Invalid issues
  | Invalid issues, Valid _ => Invalid issues
  | Invalid issues1, Invalid issues2 => Invalid (issues1 ++ issues2)
  end.

(** [z.object({...})]: keys that the shape does not name are dropped. *)
Definition z_object {A : Type} (f : fields_parser A) : schema A :=
  fun p input =>
    match input with
    | VObj _ => f p input
    | _ => Invalid [issue (invalid_type "object") None p input]
    end.

(** *** Objects that keep their unknown keys

    [z.object({...}).passthrough()]: the output is an object again, with the
    keys of the shape first (a key is set when its value is defined or the
    input has the key) and then every other key of the input, unchanged. *)

Fixpoint parse_shape (shape : list (string * schema jsval))
    (p : list PathSeg) (input : jsval) : list ZodIssue * obj :=
  match shape with
  | [] => ([], [])
  | (k, s) :: rest =>
      let '(issues, out) := parse_shape rest p input in
      match s (p ++ [Key k]) (prop k input) with
      | Valid VUndefined =>
          (issues, if key_in k input then (k, VUndefined) :: out else out)
      | Valid v => (issues, (k, v) :: out)
      | Invalid here => (here ++ issues, out)
      end
  end.

Definition unknown_keys (shape : list (string * schema jsval))
    (entries : obj) : obj :=
  filter (fun e => negb (existsb (String.eqb (fst e)) (map fst shape))
                   && negb (String.eqb (fst e) "__proto__")) entries.

Definition z_object_passthrough (shape : list (string * schema jsval))
    : schema obj := fun p input =>
  match input with
  | VObj entries =>
      match parse_shape shape p input with
      | ([], out) => Valid (out ++ unknown_keys shape entries)
      | (issues, _) => Invalid issues
      end
  | _ => Invalid [issue (invalid_type "object") None p input]
  end.

(** A string-valued and an optional string-valued field of such an object. *)
Definition js_string (s : schema string) : schema jsval :=
  transform s VStr.

Definition js_optional_string (s : schema (option string)) : schema jsval :=
  transform s (fun o => match o with Some x => VStr x | None => VUndefined end).

(* ================================================================= *)
(** ** The incident schemas (src/schemas/incident-schemas.ts) *)

Definition IncidentStateEnum : schema string :=
  transform (z_enum state_values) (mapped_or_self stateMap).

Definition IncidentPriorityEnum : schema string :=
  transform (z_enum priority_values) (mapped_or_self priorityMap).

Definition IncidentUrgencyEnum : schema string :=
  transform (z_enum urgency_values) (mapped_or_self urgencyMap).

(** The schema of a classification field of the given kind. *)
Definition enum_of_kind (kind : FieldKind) : schema string :=
  match kind with
  | state => IncidentStateEnum
  | priority => IncidentPriorityEnum
  | urgency_or_impact => IncidentUrgencyEnum
  end.

(** [z.enum([...])] on the operator literals, with the operator as output. *)
Definition z_operator : schema QueryOperator := fun p input =>
  match input with
  | VStr s =>
      match find (fun op => String.eqb s (operator_text op)) all_operators with
      | Some op => Valid op
      | None => Invalid [issue (invalid_value (map operator_text all_operators))
                           None p input]
      end
  | _ => Invalid [issue (invalid_value (map operator_text all_operators))
                    None p input]
  end.

(** [z.union([z.string(), z.number(), z.boolean()])] *)
Definition z_scalar : schema scalar :=
  z_union [transform z_string SString;
           transform z_number SNumber;
           transform z_boolean SBoolean].

Definition QueryOperatorSchema : schema QueryValue :=
  z_object (and_field (and_field (build Operator)
    "operator" z_operator)
    "value" z_scalar).

Definition QueryValueSchema : schema QueryValue :=
  z_union [transform z_string (fun s => Literal (SString s));
           transform z_number (fun q => Literal (SNumber q));
           transform z_boolean (fun b => Literal (SBoolean b));
           QueryOperatorSchema].

Definition QueryFilterSchema : schema (option QueryFilter) :=
  optional (z_record QueryValueSchema).

Definition InstanceNameSchema : schema (option string) :=
  optional (z_enum ["primary"; "dev"; "test"; "prod"]).

Definition IncidentQuerySchema : schema IncidentQueryInput.t :=
  z_object (and_field (and_field (and_field (and_field
    (build IncidentQueryInput.mk)
    "filter" QueryFilterSchema)
    "limit" (default (with_checks z_number [int; min 1; max 1000]) 100%Q))
    "fields" (optional (z_array z_string)))
    "instance" InstanceNameSchema).

Definition IncidentGetSchema : schema IncidentGetInput.t :=
  z_object (and_field (and_field (and_field
    (build IncidentGetInput.mk)
    "identifier" (with_checks z_string
                    [min_length 1 (Some "Identifier cannot be empty")]))
    "fields" (optional (z_array z_string)))
    "instance" InstanceNameSchema).

Definition IncidentCreateShape : list (string * schema jsval) :=
    [("short_description",
      js_string (with_checks z_string
        [min_length 1 (Some "Short description is required and cannot be empty")]));
     ("description", js_optional_string (optional z_string));
     ("priority", js_optional_string (optional IncidentPriorityEnum));
     ("urgency", js_optional_string (optional IncidentUrgencyEnum));
     ("impact", js_optional_string (optional IncidentUrgencyEnum));
     ("category", js_optional_string (optional z_string));
     ("subcategory", js_optional_string (optional z_string));
     ("assignment_group", js_optional_string (optional z_string));
     ("assigned_to", js_optional_string (optional z_string));
     ("caller_id", js_optional_string (optional z_string));
     ("instance", js_optional_string InstanceNameSchema)].

Definition IncidentCreateSchema : schema obj :=
  z_object_passthrough IncidentCreateShape.

Definition IncidentUpdateShape : list (string * schema jsval) :=
    [("identifier", js_string (with_checks z_string
                       [min_length 1 (Some "Identifier cannot be empty")]));
     ("state", js_optional_string (optional IncidentStateEnum));
     ("priority", js_optional_string (optional IncidentPriorityEnum));
     ("urgency", js_optional_string (optional IncidentUrgencyEnum));
     ("impact", js_optional_string (optional IncidentUrgencyEnum));
     ("short_description", js_optional_string (optional z_string));
     ("description", js_optional_string (optional z_string));
     ("work_notes", js_optional_string (optional z_string));
     ("comments", js_optional_string (optional z_string));
     ("assignment_group", js_optional_string (optional z_string));
     ("assigned_to", js_optional_string (optional z_string));
     ("close_code", js_optional_string (optional z_string));
     ("close_notes", js_optional_string (optional z_string));
     ("category", js_optional_string (optional z_string));
     ("subcategory", js_optional_string (optional z_string));
     ("instance", js_optional_string InstanceNameSchema)].

Definition IncidentUpdateSchema : schema obj :=
  z_object_passthrough IncidentUpdateShape.

Definition IncidentDeleteSchema : schema IncidentDeleteInput.t :=
  z_object (and_field (and_field (and_field
    (build IncidentDeleteInput.mk)
    "identifier" (with_checks z_string
                    [min_length 1 (Some "Identifier cannot be empty")]))
    "confirm" (with_checks z_boolean
                 [refine (fun val => Bool.eqb val true)
                    "Deletion requires explicit confirmation. Set confirm to true."]))
    "instance" InstanceNameSchema).

(** [Schema.parse(args)] *)
Definition parse {A : Type} (s : schema A) (args : jsval) : ParseResult A :=
  s [] args.

(* ================================================================= *)
(** ** The query part of the client (src/services/servicenow-client.ts) *)

(** [`${v}`] for a scalar of a filter. *)
Definition scalar_text (v : scalar) : string :=
  match v with
  | SString s => s
  | SNumber q => Number_toString q
  | SBoolean true => "true"
  | SBoolean false => "false"
  end.

Definition buildEncodedQuery (filter : QueryFilter) : string :=
  let queryParts :=
    fold_left
      (fun parts entry =>
         let '(field, value) := entry in
         match value with
         | Operator operator val =>
             parts ++ [field +++ operator_text operator +++ scalar_text val]
         | Literal v =>
             parts ++ [field +++ "=" +++ scalar_text v]
         end)
      filter [] in
  join "^" queryParts.

(** [options?.x] *)
Definition opt {A : Type} (options : option TableQueryOptions)
    (x : TableQueryOptions -> option A) : option A :=
  match options with Some o => x o | None => None end.

(** The [params] object that [queryTable] hands to the HTTP GET: a key is
    set only inside the [if] that guards it. *)
Definition queryTable_params (filter : option QueryFilter)
    (options : option TableQueryOptions) : list (string * scalar) :=
  let params := [] in
  let params :=
    match filter with
    | Some f => params ++ [("sysparm_query", SString (buildEncodedQuery f))]
    | None => params
    end in
  let params :=
    match opt options limit with
    | Some n => if truthy_number n then params ++ [("sysparm_limit", SNumber n)]
                else params
    | None => params
    end in
  let params :=
    match opt options offset with
    | Some n => if truthy_number n then params ++ [("sysparm_offset", SNumber n)]
                else params
    | None => params
    end in
  let params :=
    match opt options fields with
    | Some fs => params ++ [("sysparm_fields", SString (join "," fs))]
    | None => params
    end in
  let params :=
    match opt options displayValue with
    | Some d => params ++ [("sysparm_display_value", d)]
    | None => params
    end in
  let params :=
    match opt options excludeReferenceLink with
    | Some true => params ++ [("sysparm_exclude_reference_link", SBoolean true)]
    | _ => params
    end in
  params.

(** The HTTP request that [queryTable] sends for a query call. *)
Record HttpGet : Type := {
  url : string;
  params : list (string * scalar)
}.

Definition queryTable_request (tableName : string)
    (filter : option QueryFilter) (options : option TableQueryOptions) : HttpGet :=
  {| url := "/table/" +++ tableName;
     params := queryTable_params filter options |}.

(* ================================================================= *)
(** ** The incident tools with validation (src/tools/incident-tools.ts) *)

Definition segment_text (seg : PathSeg) : string :=
  match seg with
  | Key k => k
  | Index i => nat_text i
  end.

Definition formatValidationError (issues : list ZodIssue) : string :=
  let errors :=
    join nl
      (map (fun err =>
              let path_text := join "." (map segment_text (path err)) in
              "  - " +++ (if truthy_string path_text then path_text +++ ": " else "")
                     +++ message err)
           issues) in
  "Validation Error:" +++ nl +++ errors.

Definition incidentQuery (args : jsval) : tool string :=
  match parse IncidentQuerySchema args with
  | Invalid issues => Throw (formatValidationError issues)
  | Valid validatedArgs =>
      let filter := IncidentQueryInput.filter validatedArgs in
      let limit := IncidentQueryInput.limit validatedArgs in
      let fields := IncidentQueryInput.fields validatedArgs in
      results <- queryTable INCIDENT_TABLE filter (options_of (Some limit) fields) ;;
      match results with
      | [] => Ret "No incidents found matching the criteria."
      | _ => Ret ("Found " +++ nat_text (List.length results) +++ " incident(s):"
                  +++ nl +++ nl +++ JSON_stringify_all results)
      end
  end.

Definition incidentGet (args : jsval) : tool string :=
  match parse IncidentGetSchema args with
  | Invalid issues => Throw (formatValidationError issues)
  | Valid validatedArgs =>
      let identifier := IncidentGetInput.identifier validatedArgs in
      let fields := IncidentGetInput.fields validatedArgs in
      if is_sys_id identifier then
        incident <- getRecord INCIDENT_TABLE identifier (options_of None fields) ;;
        Ret ("Incident Details:" +++ nl +++ nl +++ JSON_stringify incident)
      else
        results <- queryTable INCIDENT_TABLE
                     (Some [("number", Literal (SString identifier))])
                     (options_of (Some 1%Q) fields) ;;
        match results with
        | [] => Ret ("Incident " +++ dquote +++ identifier +++ dquote
                     +++ " not found.")
        | incident :: _ =>
            Ret ("Incident Details:" +++ nl +++ nl +++ JSON_stringify incident)
        end
  end.

(** A property that the type of the validated input declares a string, and
    one that it declares an optional string. *)
Definition string_prop (k : string) (o : obj) : string :=
  match assoc k o with Some (VStr s) => s | _ => "" end.

Definition optional_string_prop (k : string) (o : obj) : option string :=
  match assoc k o with Some (VStr s) => Some s | _ => None end.

(** [o[k] = v] *)
Fixpoint set_prop (k : string) (v : jsval) (o : obj) : obj :=
  match o with
  | [] => [(k, v)]
  | (k', v') :: rest =>
      if String.eqb k k' then (k, v) :: rest else (k', v') :: set_prop k v rest
  end.

(** [if (x) data.k = x] for an optional string [x] *)
Definition set_if_truthy (k : string) (x : option string) (data : obj) : obj :=
  match x with
  | Some s => if truthy_string s then set_prop k (VStr s) data else data
  | None => data
  end.

Definition incidentCreate (args : jsval) : tool string :=
  match parse IncidentCreateSchema args with
  | Invalid issues => Throw (formatValidationError issues)
  | Valid validatedArgs =>
      let short_description := prop "short_description" (VObj validatedArgs) in
      let description := optional_string_prop "description" validatedArgs in
      let priority := optional_string_prop "priority" validatedArgs in
      let urgency := optional_string_prop "urgency" validatedArgs in
      let impact := optional_string_prop "impact" validatedArgs in
      let category := optional_string_prop "category" validatedArgs in
      let subcategory := optional_string_prop "subcategory" validatedArgs in
      let assignment_group := optional_string_prop "assignment_group" validatedArgs in
      let assigned_to := optional_string_prop "assigned_to" validatedArgs in
      let caller_id := optional_string_prop "caller_id" validatedArgs in
      let otherFields :=
        rest_without ["short_description"; "description"; "priority"; "urgency";
                      "impact"; "category"; "subcategory"; "assignment_group";
                      "assigned_to"; "caller_id"; "instance"] validatedArgs in
      let incidentData := ("short_description", short_description) :: otherFields in
      let incidentData := set_if_truthy "description" description incidentData in
      let incidentData := set_if_truthy "priority" priority incidentData in
      let incidentData := set_if_truthy "urgency" urgency incidentData in
      let incidentData := set_if_truthy "impact" impact incidentData in
      let incidentData := set_if_truthy "category" category incidentData in
      let incidentData := set_if_truthy "subcategory" subcategory incidentData in
      let incidentData :=
        set_if_truthy "assignment_group" assignment_group incidentData in
      let incidentData := set_if_truthy "assigned_to" assigned_to incidentData in
      let incidentData := set_if_truthy "caller_id" caller_id incidentData in
      newIncident <- createRecord INCIDENT_TABLE incidentData ;;
      Ret (check_mark +++ " Incident created successfully!" +++ nl +++ nl
           +++ "Incident Number: " +++ number newIncident +++ nl
           +++ "Sys ID: " +++ sys_id newIncident +++ nl +++ nl
           +++ "Details:" +++ nl +++ JSON_stringify newIncident)
  end.

Definition incidentUpdate (args : jsval) : tool string :=
  match parse IncidentUpdateSchema args with
  | Invalid issues => Throw (formatValidationError issues)
  | Valid validatedArgs =>
      let identifier := string_prop "identifier" validatedArgs in
      let updateData := rest_without ["identifier"; "instance"] validatedArgs in
      let finish (sysId : string) : tool string :=
        updatedIncident <- updateRecord INCIDENT_TABLE sysId updateData ;;
        Ret (check_mark +++ " Incident updated successfully!" +++ nl +++ nl
             +++ "Incident Number: " +++ number updatedIncident +++ nl +++ nl
             +++ "Updated Details:" +++ nl +++ JSON_stringify updatedIncident) in
      if is_sys_id identifier then
        finish identifier
      else
        results <- queryTable INCIDENT_TABLE
                     (Some [("number", Literal (SString identifier))])
                     (options_of (Some 1%Q) (Some ["sys_id"; "number"])) ;;
        match results with
        | [] => Ret ("Incident " +++ dquote +++ identifier +++ dquote
                     +++ " not found.")
        | first :: _ => finish (sys_id first)
        end
  end.

Definition incidentDelete (args : jsval) : tool string :=
  match parse IncidentDeleteSchema args with
  | Invalid issues => Throw (formatValidationError issues)
  | Valid validatedArgs =>
      let identifier := IncidentDeleteInput.identifier validatedArgs in
      let finish (sysId incidentNumber : string) : tool string :=
        _ <- deleteRecord INCIDENT_TABLE sysId ;;
        Ret (check_mark +++ " Incident " +++ incidentNumber
             +++ " deleted successfully.") in
      if is_sys_id identifier then
        incident <- getRecord INCIDENT_TABLE identifier
                      (options_of None (Some ["sys_id"; "number"])) ;;
        finish (sys_id incident) (number incident)
      else
        results <- queryTable INCIDENT_TABLE
                     (Some [("number", Literal (SString identifier))])
                     (options_of (Some 1%Q) (Some ["sys_id"; "number"])) ;;
        match results with
        | [] => Ret ("Incident " +++ dquote +++ identifier +++ dquote
                     +++ " not found.")
        | first :: _ => finish (sys_id first) (number first)
        end
  end.

(* ================================================================= *)
(** ** The incident tools before validation was added

    These take [args: any] and read its properties as they are.  The model
    covers the arguments on which the reads have the types the later code
    needs ([identifier] a string, [fields] absent or an array of strings);
    on other arguments it gives [None]. *)

Definition as_string (v : jsval) : option string :=
  match v with VStr s => Some s | _ => None end.

Fixpoint as_strings (items : list jsval) : option (list string) :=
  match items with
  | [] => Some []
  | VStr s :: rest =>
      match as_strings rest with
      | Some out => Some (s :: out)
      | None => None
      end
  | _ => None
  end.

Definition as_optional_string_array (v : jsval) : option (option (list string)) :=
  match v with
  | VUndefined => Some None
  | VArr items =>
      match as_strings items with
      | Some out => Some (Some out)
      | None => None
      end
  | _ => None
  end.

Definition legacy_incidentGet (args : jsval) : option (tool string) :=
  match args with
  | VObj _ =>
      match as_string (prop "identifier" args),
            as_optional_string_array (prop "fields" args) with
      | Some identifier, Some fields =>
          Some
            (if is_sys_id identifier then
               incident <- getRecord INCIDENT_TABLE identifier
                             (options_of None fields) ;;
               Ret ("Incident Details:" +++ nl +++ nl +++ JSON_stringify incident)
             else
               results <- queryTable INCIDENT_TABLE
                            (Some [("number", Literal (SString identifier))])
                            (options_of (Some 1%Q) fields) ;;
               match results with
               | [] => Ret ("Incident " +++ dquote +++ identifier +++ dquote
                            +++ " not found.")
               | incident :: _ =>
                   Ret ("Incident Details:" +++ nl +++ nl
                        +++ JSON_stringify incident)
               end)
      | _, _ => None
      end
  | _ => None
  end.

Definition legacy_incidentUpdate (args : jsval) : option (tool string) :=
  match args with
  | VObj entries =>
      match as_string (prop "identifier" args) with
      | Some identifier =>
          let updateData := rest_without ["identifier"] entries in
          let finish (sysId : string) : tool string :=
            updatedIncident <- updateRecord INCIDENT_TABLE sysId updateData ;;
            Ret (check_mark +++ " Incident updated successfully!" +++ nl +++ nl
                 +++ "Incident Number: " +++ number updatedIncident +++ nl +++ nl
                 +++ "Updated Details:" +++ nl
                 +++ JSON_stringify updatedIncident) in
          Some
            (if is_sys_id identifier then
               finish identifier
             else
               results <- queryTable INCIDENT_TABLE
                            (Some [("number", Literal (SString identifier))])
                            (options_of (Some 1%Q) (Some ["sys_id"; "number"])) ;;
               match results with
               | [] => Ret ("Incident " +++ dquote +++ identifier +++ dquote
                            +++ " not found.")
               | first :: _ => finish (sys_id first)
               end)
      | None => None
      end
  | _ => None
  end.


(* ================================================================= *)
(** ** More of the client (src/services/servicenow-client.ts) *)

(** The [params] object that [getRecord] hands to the HTTP GET. *)
Definition getRecord_params (options : option TableQueryOptions)
    : list (string * scalar) :=
  let params := [] in
  let params :=
    match opt options fields with
    | Some fs => params ++ [("sysparm_fields", SString (join "," fs))]
    | None => params
    end in
  let params :=
    match opt options displayValue with
    | Some d => params ++ [("sysparm_display_value", d)]
    | None => params
    end in
  let params :=
    match opt options excludeReferenceLink with
    | Some true => params ++ [("sysparm_exclude_reference_link", SBoolean true)]
    | _ => params
    end in
  params.

(** The body of an error response of the store, [{ error: { message,
    detail? } }]. *)
Record ErrorBody : Type := {
  error_message : string;
  error_detail : option string
}.

(** What a client method can catch, as far as [handleError] tells the
    cases apart: an HTTP error with a response (its status, its body when
    the body has an [error], and the message of the HTTP library), an HTTP
    error with a request and no response, any other [Error] (an HTTP error
    with neither is one), and a thrown value that is not an [Error], by its
    [String(error)]. *)
Inductive Caught : Type :=
| WithResponse (status : nat) (data : option ErrorBody) (axiosMessage : string)
| WithRequestOnly
| ErrorInstance (errorMessage : string)
| NotAnError (text : string).

(** The message of the [Error] that [handleError] returns. *)
Definition handleError (instanceUrl : string) (error : Caught) (context : string)
    : string :=
  match error with
  | WithResponse status (Some data) _ =>
      "ServiceNow API Error (" +++ context +++ "): " +++ error_message data
      +++ match error_detail data with
          | Some detail => if truthy_string detail then " - " +++ detail else ""
          | None => ""
          end
  | WithResponse status None axiosMessage =>
      "ServiceNow API Error (" +++ context +++ "): HTTP " +++ nat_text status
      +++ " - " +++ axiosMessage
  | WithRequestOnly =>
      "ServiceNow Connection Error (" +++ context
      +++ "): No response received from " +++ instanceUrl
  | ErrorInstance errorMessage =>
      "ServiceNow Client Error (" +++ context +++ "): " +++ errorMessage
  | NotAnError text_ =>
      "ServiceNow Unknown Error (" +++ context +++ "): " +++ text_
  end.

(* ================================================================= *)
(** ** The tool dispatch of the server (src/index.ts) *)

(** [`${v}`] for a value of any type that came from JSON. *)
Fixpoint ToString (v : jsval) : string :=
  match v with
  | VUndefined => "undefined"
  | VNull => "null"
  | VBool true => "true"
  | VBool false => "false"
  | VNum q => Number_toString q
  | VStr s => s
  | VArr items =>
      join "," (map (fun x => match x with
                              | VUndefined => ""
                              | VNull => ""
                              | _ => ToString x
                              end) items)
  | VObj _ => "[object Object]"
  end.

(** The content of a tool response: its one text, and whether the
    response carries [isError: true]. *)
Record ToolResponse : Type := {
  text : string;
  isError : bool
}.

(** [getClient(instanceName)] on the map of clients, by instance name in
    the order the clients were created: the client, or the message of the
    error thrown. *)
Definition getClient {S : Type} (clients : list (string * Store S))
    (defaultInstance : string) (instanceName : jsval) : string + Store S :=
  let name := if truthy instanceName then instanceName else VStr defaultInstance in
  let client := match name with
                | VStr n => assoc n clients
                | _ => None
                end in
  match client with
  | Some c => inr c
  | None =>
      inl ("ServiceNow instance " +++ dquote +++ ToString name +++ dquote
           +++ " is not configured. Available instances: "
           +++ join ", " (map fst clients))
  end.

(** The incident tool that a case of the switch runs. *)
Definition incident_tool_named (name : string) : option Operation :=
  if String.eqb name "incident_query" then Some incident_query
  else if String.eqb name "incident_get" then Some incident_get
  else if String.eqb name "incident_create" then Some incident_create
  else if String.eqb name "incident_update" then Some incident_update
  else if String.eqb name "incident_delete" then Some incident_delete
  else None.

Definition thrown {S A : Type} (e : string) (s : S) : Run S A :=
  {| calls := []; outcome := Rejected e; final := s |}.

(** One incident case of the switch: the client of the instance of the
    arguments, then [handleIncidentTool] around the tool. *)
Definition incident_case {S : Type} (tools : Operation -> jsval -> tool string)
    (clients : list (string * Store S)) (defaultInstance : string)
    (op : Operation) (args : jsval) (s : S) : Run S ToolResponse :=
  match getClient clients defaultInstance (prop "instance" args) with
  | inl e => thrown e s
  | inr client =>
      let r := run client (tools op args) s in
      {| calls := calls r;
         outcome := match outcome r with
                    | Returned result =>
                        Returned {| text := result; isError := false |}
                    | Rejected e => Rejected e
                    end;
         final := final r |}
  end.

(** The handler of a tool call: the switch on the name inside the [try],
    and the [catch] that turns an error into an error response.  The two
    generic tools are taken as given ([handleTestConnection],
    [handleQuery]); [tools] are the incident tools. *)
Definition callTool {S : Type}
    (handleTestConnection handleQuery : jsval -> S -> Run S ToolResponse)
    (tools : Operation -> jsval -> tool string)
    (clients : list (string * Store S)) (defaultInstance : string)
    (name : string) (args : jsval) (s : S) : Run S ToolResponse :=
  let r :=
    if String.eqb name "servicenow_test_connection" then
      handleTestConnection args s
    else if String.eqb name "servicenow_query" then
      handleQuery args s
    else
      match incident_tool_named name with
      | Some op => incident_case tools clients defaultInstance op args s
      | None => thrown ("Unknown tool: " +++ name) s
      end in
  {| calls := calls r;
     outcome := match outcome r with
                | Returned response => Returned response
                | Rejected errorMessage =>
                    Returned {| text := "Error: " +++ errorMessage;
                                isError := true |}
                end;
     final := final r |}.

(** The clients that the constructor of the server creates: one for each
    configured instance, in the order primary, dev, test, prod. *)
Definition clients_of {S : Type} (connect : Config.ServiceNowInstanceConfig -> Store S)
    (config : Config.ServiceNowConfig) : list (string * Store S) :=
  flat_map (fun name =>
              match Config.instance_of (Config.instances config) name with
              | Some instanceConfig => [(name, connect instanceConfig)]
              | None => []
              end)
           Config.names.

(* ================================================================= *)
(** ** The delete tool before validation was added *)

(** As for the other tools of that version, the model covers object
    arguments; once the confirmation is passed, the identifier must be a
    string. *)
Definition legacy_incidentDelete (args : jsval) : option (tool string) :=
  match args with
  | VObj _ =>
      if negb (truthy (prop "confirm" args)) then
        Some (Ret "Error: Delete operation requires confirmation. Set confirm=true to proceed.")
      else
        match as_string (prop "identifier" args) with
        | Some identifier =>
            let finish (sysId incidentNumber : string) : tool string :=
              _ <- deleteRecord INCIDENT_TABLE sysId ;;
              Ret (check_mark +++ " Incident " +++ incidentNumber
                   +++ " deleted successfully.") in
            Some
              (if is_sys_id identifier then
                 incident <- getRecord INCIDENT_TABLE identifier
                               (options_of None (Some ["sys_id"; "number"])) ;;
                 finish (sys_id incident) (number incident)
               else
                 results <- queryTable INCIDENT_TABLE
                              (Some [("number", Literal (SString identifier))])
                              (options_of (Some 1%Q) (Some ["sys_id"; "number"])) ;;
                 match results with
                 | [] => Ret ("Incident " +++ dquote +++ identifier +++ dquote
                              +++ " not found.")
                 | first :: _ => finish (sys_id first) (number first)
                 end)
        | None => None
        end
  | _ => None
  end.

(* ================================================================= *)
(** ** Reading the models *)

(** The value a filter value has in a payload. *)
Definition scalar_value (v : scalar) : jsval :=
  match v with
  | SString s => VStr s
  | SNumber q => VNum q
  | SBoolean b => VBool b
  end.

Definition query_value (v : QueryValue) : jsval :=
  match v with
  | Literal x => scalar_value x
  | Operator op x =>
      VObj [("operator", VStr (operator_text op)); ("value", scalar_value x)]
  end.

(** The object a filter is in a payload. *)
Definition filter_object (f : QueryFilter) : jsval :=
  VObj (map (fun e => (fst e, query_value (snd e))) f).

(** A call that only reads the store. *)
Definition is_read (c : Call) : bool :=
  match c with
  | CallQueryTable _ _ _ => true
  | CallGetRecord _ _ _ => true
  | _ => false
  end.

Definition is_update (c : Call) : bool :=
  match c with CallUpdateRecord _ _ _ => true | _ => false end.

Definition is_delete (c : Call) : bool :=
  match c with CallDeleteRecord _ _ => true | _ => false end.

Definition is_create (c : Call) : bool :=
  match c with CallCreateRecord _ _ => true | _ => false end.

(** The calls of a run that change the store. *)
Definition mutations (cs : list Call) : list Call :=
  filter (fun c => negb (is_read c)) cs.

(** The kind of change that an operation may make. *)
Definition may_make (op : Operation) (c : Call) : bool :=
  match op with
  | incident_query => false
  | incident_get => false
  | incident_create => is_create c
  | incident_update => is_update c
  | incident_delete => is_delete c
  end.

(** The codes of a classification field of an incident. *)
Definition codes_of (k : string) : list string :=
  if String.eqb k "state" then ["1"; "2"; "3"; "6"; "7"; "8"]
  else if String.eqb k "priority" then ["1"; "2"; "3"; "4"; "5"]
  else ["1"; "2"; "3"].

(** The optional named fields of the create tool. *)
Definition create_optional_fields : list string :=
  ["description"; "priority"; "urgency"; "impact"; "category"; "subcategory";
   "assignment_group"; "assigned_to"; "caller_id"].

(** The kind of the classification field of a key. *)
Definition kind_of_field (k : string) : FieldKind :=
  if String.eqb k "state" then state
  else if String.eqb k "priority" then priority
  else urgency_or_impact.

(** The [incidentData] that [incidentCreate] builds from its validated
    arguments. *)
Definition incidentData_of (validatedArgs : obj) : obj :=
  let otherFields :=
    rest_without ["short_description"; "description"; "priority"; "urgency";
                  "impact"; "category"; "subcategory"; "assignment_group";
                  "assigned_to"; "caller_id"; "instance"] validatedArgs in
  let optional_ k := optional_string_prop k validatedArgs in
  set_if_truthy "caller_id" (optional_ "caller_id")
    (set_if_truthy "assigned_to" (optional_ "assigned_to")
      (set_if_truthy "assignment_group" (optional_ "assignment_group")
        (set_if_truthy "subcategory" (optional_ "subcategory")
          (set_if_truthy "category" (optional_ "category")
            (set_if_truthy "impact" (optional_ "impact")
              (set_if_truthy "urgency" (optional_ "urgency")
                (set_if_truthy "priority" (optional_ "priority")
                  (set_if_truthy "description" (optional_ "description")
                    (("short_description",
                      prop "short_description" (VObj validatedArgs))
                     :: otherFields))))))))).

(** The first characters of a message that tell the kind of a store
    error. *)
Definition kind_prefix (error : Caught) : string :=
  match error with
  | WithResponse _ _ _ => "ServiceNow API Error ("
  | WithRequestOnly => "ServiceNow Connection Error ("
  | ErrorInstance _ => "ServiceNow Client Error ("
  | NotAnError _ => "ServiceNow Unknown Error ("
  end.

Definition same_kind (e1 e2 : Caught) : bool :=
  match e1, e2 with
  | WithResponse _ _ _, WithResponse _ _ _ => true
  | WithRequestOnly, WithRequestOnly => true
  | ErrorInstance _, ErrorInstance _ => true
  | NotAnError _, NotAnError _ => true
  | _, _ => false
  end.

(** [s] starts with [pre]. *)
Definition starts_with (pre s : string) : bool := String.prefix pre s.

(* ================================================================= *)
(** ** What the specification says, in its own words *)

(** §4.1, the label tables. *)
Definition documented_codes (kind : FieldKind) : list (string * string) :=
  match kind with
  | state =>
      [("New", "1"); ("In Progress", "2"); ("On Hold", "3");
       ("Resolved", "6"); ("Closed", "7"); ("Canceled", "8")]
  | priority =>
      [("Critical", "1"); ("High", "2"); ("Moderate", "3");
       ("Low", "4"); ("Planning", "5")]
  | urgency_or_impact =>
      [("High", "1"); ("Medium", "2"); ("Low", "3")]
  end.

(** §4.1, [normalize(fieldKind, rawValue)]: the enum of the kind run on the
    raw string. *)
Definition normalize (kind : FieldKind) (rawValue : string) : ParseResult string :=
  parse (enum_of_kind kind) (VStr rawValue).

(** §4.2, the symbol of each operator, in the order of [all_operators]. *)
Definition documented_symbols : list string :=
  ["="; "!="; ">"; ">="; "<"; "<=";
   "LIKE"; "STARTSWITH"; "ENDSWITH"; "CONTAINS";
   "IN"; "NOT IN"; "ISEMPTY"; "ISNOTEMPTY"].

(** §4.2, the fragment of one entry: [field||symbol(op)||v] for an operator
    value and [field=v] for a literal. *)
Definition fragment (entry : string * QueryValue) : string :=
  match entry with
  | (field, Operator op v) => field +++ operator_text op +++ scalar_text v
  | (field, Literal v) => field +++ "=" +++ scalar_text v
  end.

(** The scalar inside a filter value. *)
Definition scalar_of (value : QueryValue) : scalar :=
  match value with
  | Literal v => v
  | Operator _ v => v
  end.

(** No caret in the field name nor in the text of the value. *)
Definition caret_free (entry : string * QueryValue) : Prop :=
  count_char caret (fst entry) = 0
  /\ count_char caret (scalar_text (scalar_of (snd entry))) = 0.


(** §4.3 and §4.5: the handler of each operation, what its validation
    finds, and whether its validation passes. *)
Definition handler (op : Operation) : jsval -> tool string :=
  match op with
  | incident_query => incidentQuery
  | incident_get => incidentGet
  | incident_create => incidentCreate
  | incident_update => incidentUpdate
  | incident_delete => incidentDelete
  end.

Definition validation (op : Operation) (args : jsval) : list ZodIssue :=
  match op with
  | incident_query => issues_of (parse IncidentQuerySchema args)
  | incident_get => issues_of (parse IncidentGetSchema args)
  | incident_create => issues_of (parse IncidentCreateSchema args)
  | incident_update => issues_of (parse IncidentUpdateSchema args)
  | incident_delete => issues_of (parse IncidentDeleteSchema args)
  end.

Definition validates (op : Operation) (args : jsval) : bool :=
  match op with
  | incident_query => is_valid (parse IncidentQuerySchema args)
  | incident_get => is_valid (parse IncidentGetSchema args)
  | incident_create => is_valid (parse IncidentCreateSchema args)
  | incident_update => is_valid (parse IncidentUpdateSchema args)
  | incident_delete => is_valid (parse IncidentDeleteSchema args)
  end.

(** What the schema of a field finds on a value at a path. *)
Definition finds {A : Type} (s : schema A)
    : list PathSeg -> jsval -> list ZodIssue :=
  fun p x => issues_of (s p x).

(** The fields that each operation validates, in the order of its schema. *)
Definition validated_fields (op : Operation)
    : list (string * (list PathSeg -> jsval -> list ZodIssue)) :=
  match op with
  | incident_query =>
      [("filter", finds QueryFilterSchema);
       ("limit", finds (default (with_checks z_number [int; min 1; max 1000])
                          100%Q));
       ("fields", finds (optional (z_array z_string)));
       ("instance", finds InstanceNameSchema)]
  | incident_get =>
      [("identifier", finds (with_checks z_string
                               [min_length 1 (Some "Identifier cannot be empty")]));
       ("fields", finds (optional (z_array z_string)));
       ("instance", finds InstanceNameSchema)]
  | incident_create =>
      map (fun ks => (fst ks, finds (snd ks))) IncidentCreateShape
  | incident_update =>
      map (fun ks => (fst ks, finds (snd ks))) IncidentUpdateShape
  | incident_delete =>
      [("identifier", finds (with_checks z_string
                               [min_length 1 (Some "Identifier cannot be empty")]));
       ("confirm", finds (with_checks z_boolean
                            [refine (fun val => Bool.eqb val true)
                               "Deletion requires explicit confirmation. Set confirm to true."]));
       ("instance", finds InstanceNameSchema)]
  end.

(** §4.3, one line of the report: the dotted path and a colon when the
    path is not empty, then the message. *)
Definition report_line (i : ZodIssue) : string :=
  let dotted := join "." (map segment_text (path i)) in
  match dotted with
  | EmptyString => "  - " +++ message i
  | _ => "  - " +++ dotted +++ ": " +++ message i
  end.

(** The fields of the payload that validation finds fault with, in the
    order of the schema. *)
Definition violated_fields (op : Operation) (args : jsval) : list string :=
  map fst
      (filter (fun field =>
                 match snd field [Key (fst field)] (prop (fst field) args) with
                 | [] => false
                 | _ :: _ => true
                 end)
              (validated_fields op)).

(** A schema that fails reports at least one issue. *)
Definition reports {A : Type} (s : schema A) : Prop :=
  forall p x issues, s p x = Invalid issues -> issues <> [].

(** A schema all of whose issues are at the path of the value itself. *)
Definition reports_here {A : Type} (s : schema A) : Prop :=
  forall p x i, In i (issues_of (s p x)) -> path i = p.

(** The instance names that [InstanceNameSchema] accepts. *)
Definition instance_names : list string := ["primary"; "dev"; "test"; "prod"].

(** The texts of §4.5 for an empty result. *)
Definition no_incidents_text : string := "No incidents found matching the criteria.".

Definition not_found_text (identifier : string) : string :=
  "Incident " +++ dquote +++ identifier +++ dquote +++ " not found.".

(** The run of a tool that made no call and failed with a message. *)
Definition failed_before_any_call {S : Type} (s : S) (msg : string) : Run S string :=
  {| calls := []; outcome := Rejected msg; final := s |}.

(** The lookup by number that resolves an identifier. *)
Definition lookup_by_number (identifier : string) (fs : option (list string)) : Call :=
  CallQueryTable INCIDENT_TABLE
    (Some [("number", Literal (SString identifier))])
    (options_of (Some 1%Q) fs).


(** The characters of the class [a-f0-9], in both cases. *)
Definition hex_digits : list ascii :=
  list_ascii_of_string "0123456789abcdefABCDEF".

(** The fetch by key that the delete tool makes for the number. *)
Definition fetch_for_delete (identifier : string) : Call :=
  CallGetRecord INCIDENT_TABLE identifier
    (options_of None (Some ["sys_id"; "number"])).

(* ================================================================= *)
(** ** Text and list lemmas *)

Lemma count_char_app (c : ascii) (s1 s2 : string) :
  count_char c (s1 +++ s2) = count_char c s1 + count_char c s2.
Proof.
  induction s1 as [|a s1 IH]; simpl.
  - reflexivity.
  - rewrite IH. lia.
Qed.

Lemma append_assoc (a b c : string) : (a +++ b) +++ c = a +++ b +++ c.
Proof. induction a as [|x a IH]; simpl; [reflexivity | now rewrite IH]. Qed.

Lemma count_char_join (c : ascii) (sep : string) (parts : list string) :
  count_char c (join sep parts)
  = list_sum (map (count_char c) parts)
    + (List.length parts - 1) * count_char c sep.
Proof.
  unfold join.
  induction parts as [|x rest IH]; simpl.
  - reflexivity.
  - destruct rest as [|y rest'].
    + simpl. lia.
    + rewrite !count_char_app, IH. simpl. lia.
Qed.

Lemma assoc_app_none {A : Type} (k : string) (l1 l2 : list (string * A)) :
  assoc k l1 = None -> assoc k (l1 ++ l2) = assoc k l2.
Proof.
  induction l1 as [|[k' v] l1 IH]; simpl; intros H.
  - reflexivity.
  - destruct (String.eqb k k'); [discriminate | auto].
Qed.

Lemma assoc_app_some {A : Type} (k : string) (l1 l2 : list (string * A)) (v : A) :
  assoc k l1 = Some v -> assoc k (l1 ++ l2) = Some v.
Proof.
  induction l1 as [|[k' v'] l1 IH]; simpl; intros H.
  - discriminate.
  - destruct (String.eqb k k'); auto.
Qed.

Lemma assoc_rest_without (names : list string) (o : obj) (k : string) :
  assoc k (rest_without names o)
  = if existsb (String.eqb k) names then None else assoc k o.
Proof.
  unfold rest_without.
  induction o as [|[k' v] o IH]; simpl.
  - destruct (existsb _ names); reflexivity.
  - destruct (existsb (String.eqb k') names) eqn:Ek'; simpl.
    + rewrite IH. destruct (String.eqb k k') eqn:E.
      * apply String.eqb_eq in E. subst k'. rewrite Ek'. reflexivity.
      * reflexivity.
    + destruct (String.eqb k k') eqn:E.
      * apply String.eqb_eq in E. subst k'. rewrite Ek'. reflexivity.
      * exact IH.
Qed.

(* ================================================================= *)
(** ** Vocabulary *)

Lemma z_enum_valid (options : list string) (p : list PathSeg) (v c : string) :
  z_enum options p (VStr v) = Valid c -> c = v /\ In v options.
Proof.
  unfold z_enum. destruct (existsb (String.eqb v) options) eqn:E; intros H.
  - inversion H. subst c. split; [reflexivity|].
    apply existsb_exists in E. destruct E as [x [Hin Hx]].
    apply String.eqb_eq in Hx. subst x. exact Hin.
  - discriminate.
Qed.

Lemma normalize_valid (kind : FieldKind) (v c : string) :
  normalize kind v = Valid c ->
  In v (match kind with
        | state => state_values
        | priority => priority_values
        | urgency_or_impact => urgency_values
        end)
  /\ c = mapped_or_self (match kind with
                         | state => stateMap
                         | priority => priorityMap
                         | urgency_or_impact => urgencyMap
                         end) v.
Proof.
  unfold normalize, parse. intros H.
  destruct kind; simpl in H; unfold IncidentStateEnum, IncidentPriorityEnum,
    IncidentUrgencyEnum, transform in H;
    match type of H with
    | context [z_enum ?o ?p (VStr v)] =>
        destruct (z_enum o p (VStr v)) as [a|] eqn:E; [|discriminate];
        apply z_enum_valid in E; destruct E as [-> Hin];
        inversion H; split; [exact Hin | reflexivity]
    end.
Qed.

(** C1. For each of the three field kinds, normalizing a label of the
    documented table gives the documented code, normalizing one of the
    codes gives it back, and normalizing twice is the same as normalizing
    once on every value that a kind accepts. *)
Theorem normalize_documented_codes :
  (forall kind, Forall (fun lc => normalize kind (fst lc) = Valid (snd lc))
                       (documented_codes kind))
  /\ (forall kind, Forall (fun lc => normalize kind (snd lc) = Valid (snd lc))
                          (documented_codes kind))
  /\ (forall kind rawValue coded,
        normalize kind rawValue = Valid coded ->
        normalize kind coded = Valid coded).
Proof.
  split; [|split].
  - intros kind. destruct kind; simpl; repeat constructor.
  - intros kind. destruct kind; simpl; repeat constructor.
  - intros kind v c H. apply normalize_valid in H. destruct H as [Hin ->].
    destruct kind; simpl in Hin;
      repeat (destruct Hin as [<- | Hin]; [reflexivity|]); contradiction.
Qed.

(* ================================================================= *)
(** ** The encoded query *)

Lemma queryParts_fold (filter : QueryFilter) (acc : list string) :
  fold_left
    (fun parts entry =>
       let '(field, value) := entry in
       match value with
       | Operator operator val =>
           parts ++ [field +++ operator_text operator +++ scalar_text val]
       | Literal v => parts ++ [field +++ "=" +++ scalar_text v]
       end)
    filter acc
  = acc ++ map fragment filter.
Proof.
  revert acc. induction filter as [|[field value] rest IH]; intros acc; simpl.
  - rewrite app_nil_r. reflexivity.
  - rewrite IH. destruct value; rewrite <- app_assoc; reflexivity.
Qed.

Lemma buildEncodedQuery_join (filter : QueryFilter) :
  buildEncodedQuery filter = join "^" (map fragment filter).
Proof.
  unfold buildEncodedQuery. rewrite queryParts_fold. reflexivity.
Qed.

Lemma operator_text_caret_free (op : QueryOperator) :
  count_char caret (operator_text op) = 0.
Proof. destruct op; reflexivity. Qed.

Lemma fragment_carets (entry : string * QueryValue) :
  count_char caret (fragment entry)
  = count_char caret (fst entry)
    + count_char caret (scalar_text (scalar_of (snd entry))).
Proof.
  destruct entry as [field [v | op v]]; simpl fragment;
    rewrite !count_char_app; simpl fst; simpl snd; simpl scalar_of.
  - reflexivity.
  - rewrite operator_text_caret_free. lia.
Qed.

Lemma buildEncodedQuery_carets (filter : QueryFilter) :
  count_char caret (buildEncodedQuery filter)
  = (List.length filter - 1)
    + list_sum (map (fun e => count_char caret (fragment e)) filter).
Proof.
  rewrite buildEncodedQuery_join, count_char_join.
  rewrite length_map, map_map. simpl. lia.
Qed.

(** C2 (amended). For a filter of n >= 1 entries the encoded query is the
    n fragments joined by carets, each fragment being the field name
    followed by the operator's literal text and the value, or [field=v] for
    a literal; the operator texts are the documented ones.  The carets of
    the query are the n-1 separators and those of the fragments themselves,
    so they are exactly n-1 when no field name and no value holds one. *)
Theorem buildEncodedQuery_fragments (filter : QueryFilter) :
  1 <= List.length filter ->
  buildEncodedQuery filter = join "^" (map fragment filter)
  /\ List.length (map fragment filter) = List.length filter
  /\ map operator_text all_operators = documented_symbols
  /\ (forall field op v,
        fragment (field, Operator op v)
        = field +++ operator_text op +++ scalar_text v)
  /\ (forall field v, fragment (field, Literal v) = field +++ "=" +++ scalar_text v)
  /\ count_char caret (buildEncodedQuery filter)
     = (List.length filter - 1)
       + list_sum (map (fun e => count_char caret (fragment e)) filter)
  /\ (Forall caret_free filter ->
      count_char caret (buildEncodedQuery filter) = List.length filter - 1).
Proof.
  intros Hn. repeat split.
  - apply buildEncodedQuery_join.
  - apply length_map.
  - apply buildEncodedQuery_carets.
  - intros Hfree. rewrite buildEncodedQuery_carets.
    assert (list_sum (map (fun e => count_char caret (fragment e)) filter) = 0)
      as ->; [|lia].
    clear Hn. induction Hfree as [|e rest [He1 He2] _ IH]; simpl.
    + reflexivity.
    + rewrite fragment_carets, He1, He2, IH. reflexivity.
Qed.

(* ================================================================= *)
(** ** Objects: every field is parsed and every issue is kept *)

Lemma and_field_issues {A B : Type} (f : fields_parser (A -> B)) (k : string)
    (s : schema A) (p : list PathSeg) (input : jsval) :
  issues_of (and_field f k s p input)
  = issues_of (f p input) ++ issues_of (s (p ++ [Key k]) (prop k input)).
Proof.
  unfold and_field.
  destruct (f p input), (s (p ++ [Key k]) (prop k input)); simpl;
    rewrite ?app_nil_r; reflexivity.
Qed.

Lemma and_field_valid {A B : Type} (f : fields_parser (A -> B)) (k : string)
    (s : schema A) (p : list PathSeg) (input : jsval) (b : B) :
  and_field f k s p input = Valid b ->
  exists g a, f p input = Valid g
              /\ s (p ++ [Key k]) (prop k input) = Valid a
              /\ b = g a.
Proof.
  unfold and_field.
  destruct (f p input) as [g|], (s (p ++ [Key k]) (prop k input)) as [a|];
    intros H; try discriminate.
  inversion H. exists g, a. auto.
Qed.

Lemma z_object_on_object {A : Type} (f : fields_parser A) (p : list PathSeg)
    (entries : list (string * jsval)) :
  z_object f p (VObj entries) = f p (VObj entries).
Proof. reflexivity. Qed.

Lemma invalid_of_issues {A : Type} (r : ParseResult A) :
  issues_of r <> [] -> r = Invalid (issues_of r).
Proof. destruct r; simpl; [congruence | reflexivity]. Qed.

Lemma parse_shape_issues (shape : list (string * schema jsval))
    (p : list PathSeg) (input : jsval) :
  fst (parse_shape shape p input)
  = flat_map (fun ks => issues_of (snd ks (p ++ [Key (fst ks)])
                                          (prop (fst ks) input))) shape.
Proof.
  induction shape as [|[k s] rest IH]; simpl.
  - reflexivity.
  - destruct (parse_shape rest p input) as [issues out]. simpl in IH.
    destruct (s (p ++ [Key k]) (prop k input)) as [v|here]; simpl.
    + destruct v; simpl; exact IH.
    + rewrite IH. reflexivity.
Qed.

Lemma z_object_passthrough_issues (shape : list (string * schema jsval))
    (p : list PathSeg) (entries : list (string * jsval)) :
  issues_of (z_object_passthrough shape p (VObj entries))
  = fst (parse_shape shape p (VObj entries)).
Proof.
  unfold z_object_passthrough.
  destruct (parse_shape shape p (VObj entries)) as [[|i issues] out];
    reflexivity.
Qed.

(* ================================================================= *)
(** ** The query schema *)

Lemma IncidentQuerySchema_valid (args : jsval) (v : IncidentQueryInput.t) :
  parse IncidentQuerySchema args = Valid v ->
  QueryFilterSchema [Key "filter"] (prop "filter" args)
    = Valid (IncidentQueryInput.filter v)
  /\ default (with_checks z_number [int; min 1; max 1000]) 100%Q
       [Key "limit"] (prop "limit" args)
     = Valid (IncidentQueryInput.limit v)
  /\ optional (z_array z_string) [Key "fields"] (prop "fields" args)
     = Valid (IncidentQueryInput.fields v)
  /\ InstanceNameSchema [Key "instance"] (prop "instance" args)
     = Valid (IncidentQueryInput.instance v).
Proof.
  unfold parse, IncidentQuerySchema, z_object. intros H.
  destruct args; try discriminate.
  apply and_field_valid in H. destruct H as (g4 & a4 & H & H4 & ->).
  apply and_field_valid in H. destruct H as (g3 & a3 & H & H3 & ->).
  apply and_field_valid in H. destruct H as (g2 & a2 & H & H2 & ->).
  apply and_field_valid in H. destruct H as (g1 & a1 & H & H1 & ->).
  unfold build in H. inversion H. subst g1. simpl in *. auto.
Qed.

Lemma IncidentQuerySchema_issues (entries : list (string * jsval)) :
  let args := VObj entries in
  issues_of (parse IncidentQuerySchema args)
  = issues_of (QueryFilterSchema [Key "filter"] (prop "filter" args))
    ++ issues_of (default (with_checks z_number [int; min 1; max 1000]) 100%Q
                    [Key "limit"] (prop "limit" args))
    ++ issues_of (optional (z_array z_string) [Key "fields"] (prop "fields" args))
    ++ issues_of (InstanceNameSchema [Key "instance"] (prop "instance" args)).
Proof.
  intros args. subst args. unfold parse, IncidentQuerySchema.
  rewrite z_object_on_object, !and_field_issues. unfold build. simpl.
  rewrite <- !app_assoc. reflexivity.
Qed.

Lemma safe_between_1_and_1000 (q : Q) :
  Qle_bool 1 q = true -> Qle_bool q 1000 = true -> Q_is_safe q = true.
Proof.
  intros H1 H2. unfold Q_is_safe.
  apply Qle_bool_iff in H1. apply Qle_bool_iff in H2.
  apply andb_true_iff. split; apply Qle_bool_iff.
  - apply Qle_trans with (y := 1%Q); [|exact H1]. unfold Qle. simpl. lia.
  - apply Qle_trans with (y := 1000%Q); [exact H2|]. unfold Qle. simpl. lia.
Qed.

(** The limit of a query on a number: accepted exactly when the number is
    an integer between 1 and 1000, and then unchanged. *)
Lemma limit_on_number (p : list PathSeg) (q : Q) :
  if Q_is_integer q && Qle_bool 1 q && Qle_bool q 1000
  then default (with_checks z_number [int; min 1; max 1000]) 100%Q p (VNum q)
       = Valid q
  else exists i issues,
         default (with_checks z_number [int; min 1; max 1000]) 100%Q p (VNum q)
         = Invalid (i :: issues)
         /\ path i = p.
Proof.
  unfold default, with_checks, z_number. simpl run_checks.
  unfold Q_ltb.
  destruct (Q_is_integer q) eqn:Hint; simpl.
  2:{ eexists. eexists. split; reflexivity. }
  destruct (Qle_bool 1 q) eqn:H1; simpl.
  - destruct (Qle_bool q 1000) eqn:H2; simpl.
    + rewrite (safe_between_1_and_1000 q H1 H2). reflexivity.
    + destruct (Q_is_safe q); [|destruct (Qle_bool 0 q)];
        eexists; eexists; split; reflexivity.
  - destruct (Q_is_safe q); [|destruct (Qle_bool 0 q)];
      eexists; eexists; split; reflexivity.
Qed.

Lemma Qle_bool_false_lt (a b : Q) : Qle_bool a b = false <-> (b < a)%Q.
Proof.
  split; intros H.
  - apply Qnot_le_lt. intros Hle. apply Qle_bool_iff in Hle. congruence.
  - destruct (Qle_bool a b) eqn:E; [|reflexivity].
    apply Qle_bool_iff in E. exfalso. exact (Qlt_not_le _ _ H E).
Qed.

(** C6. A query payload that validates and has no limit gets the limit
    100; a limit that is accepted is the payload's own number, an integer
    in [1, 1000]; a payload whose limit is a number that is not an integer,
    or is below 1 or above 1000, fails validation with an issue at
    [limit]; and every integer limit of the interval is accepted. *)
Theorem query_limit_default_and_bounds :
  (forall args v,
     parse IncidentQuerySchema args = Valid v ->
     prop "limit" args = VUndefined ->
     IncidentQueryInput.limit v = 100%Q)
  /\ (forall args v q,
        parse IncidentQuerySchema args = Valid v ->
        prop "limit" args = VNum q ->
        IncidentQueryInput.limit v = q
        /\ Q_is_integer q = true /\ (1 <= q)%Q /\ (q <= 1000)%Q)
  /\ (forall entries q,
        prop "limit" (VObj entries) = VNum q ->
        Q_is_integer q = false \/ (q < 1)%Q \/ (1000 < q)%Q ->
        exists issues,
          parse IncidentQuerySchema (VObj entries) = Invalid issues
          /\ exists i, In i issues /\ path i = [Key "limit"])
  /\ (forall q,
        Q_is_integer q = true -> (1 <= q)%Q -> (q <= 1000)%Q ->
        parse IncidentQuerySchema (VObj [("limit", VNum q)])
        = Valid (IncidentQueryInput.mk None q None None)).
Proof.
  split; [|split; [|split]].
  - intros args v H Hl. apply IncidentQuerySchema_valid in H.
    destruct H as (_ & H & _). rewrite Hl in H. simpl in H. congruence.
  - intros args v q H Hl. apply IncidentQuerySchema_valid in H.
    destruct H as (_ & H & _). rewrite Hl in H.
    pose proof (limit_on_number [Key "limit"] q) as L.
    destruct (Q_is_integer q && Qle_bool 1 q && Qle_bool q 1000) eqn:E.
    + rewrite L in H. injection H as Hq. rewrite <- Hq.
      apply andb_true_iff in E. destruct E as [E E3].
      apply andb_true_iff in E. destruct E as [E1 E2].
      apply Qle_bool_iff in E2. apply Qle_bool_iff in E3.
      repeat split; solve [reflexivity | assumption].
    + destruct L as (i & issues & L & _). rewrite L in H. discriminate.
  - intros entries q Hl Hbad.
    pose proof (limit_on_number [Key "limit"] q) as L.
    assert (Q_is_integer q && Qle_bool 1 q && Qle_bool q 1000 = false) as E.
    { destruct Hbad as [Hb | [Hb | Hb]].
      - rewrite Hb. reflexivity.
      - apply Qle_bool_false_lt in Hb. rewrite Hb.
        rewrite andb_false_r. reflexivity.
      - apply Qle_bool_false_lt in Hb. rewrite Hb.
        rewrite andb_false_r. reflexivity. }
    rewrite E in L. destruct L as (i & issues & L & Hp).
    pose proof (IncidentQuerySchema_issues entries) as HI. cbv zeta in HI.
    rewrite Hl in HI. rewrite L in HI.
    exists (issues_of (parse IncidentQuerySchema (VObj entries))). split.
    + apply invalid_of_issues. rewrite HI.
      intros Hnil. apply app_eq_nil in Hnil. destruct Hnil as [_ Hnil].
      discriminate.
    + exists i. split; [|exact Hp]. rewrite HI.
      apply in_or_app. right. left. reflexivity.
  - intros q Hi H1 H2.
    pose proof (limit_on_number [Key "limit"] q) as L.
    apply Qle_bool_iff in H1. apply Qle_bool_iff in H2.
    rewrite Hi, H1, H2 in L. simpl in L.
    unfold parse, IncidentQuerySchema, z_object, and_field, build.
    simpl. simpl in L. rewrite L. reflexivity.
Qed.

(* ================================================================= *)
(** ** A failed parse reports at least one issue *)

Create HintDb reports.

Lemma reports_z_string : reports z_string.
Proof. intros p [] issues H; simpl in H; inversion H; discriminate. Qed.

Lemma reports_z_number : reports z_number.
Proof. intros p [] issues H; simpl in H; inversion H; discriminate. Qed.

Lemma reports_z_boolean : reports z_boolean.
Proof. intros p [] issues H; simpl in H; inversion H; discriminate. Qed.

Lemma reports_z_enum (options : list string) : reports (z_enum options).
Proof.
  intros p x issues H. unfold z_enum in H.
  destruct x; try (inversion H; discriminate).
  destruct (existsb (String.eqb s) options); inversion H; discriminate.
Qed.

Lemma reports_with_checks {A : Type} (base : schema A) (checks : list (Check A)) :
  reports base -> reports (with_checks base checks).
Proof.
  intros Hb p x issues H. unfold with_checks in H.
  destruct (base p x) as [a|is0] eqn:E.
  - destruct (run_checks checks a p x); inversion H; discriminate.
  - inversion H. subst. exact (Hb p x issues E).
Qed.

Lemma reports_transform {A B : Type} (s : schema A) (f : A -> B) :
  reports s -> reports (transform s f).
Proof.
  intros Hs p x issues H. unfold transform in H.
  destruct (s p x) eqn:E; inversion H. subst. exact (Hs p x issues E).
Qed.

Lemma reports_optional {A : Type} (s : schema A) :
  reports s -> reports (optional s).
Proof.
  intros Hs p x issues H. unfold optional in H.
  destruct x; try discriminate;
    exact (reports_transform s Some Hs p _ issues H).
Qed.

Lemma reports_default {A : Type} (s : schema A) (d : A) :
  reports s -> reports (default s d).
Proof.
  intros Hs p x issues H. unfold default in H.
  destruct x; try discriminate; exact (Hs p _ issues H).
Qed.

Lemma reports_z_array {A : Type} (s : schema A) : reports (z_array s).
Proof.
  intros p x issues H. unfold z_array in H.
  destruct x; try (inversion H; discriminate).
  destruct (parse_items s p 0 items) as [[|i is0] out]; inversion H; discriminate.
Qed.

Lemma reports_z_record {A : Type} (s : schema A) : reports (z_record s).
Proof.
  intros p x issues H. unfold z_record in H.
  destruct x; try (inversion H; discriminate).
  destruct (parse_entries s p entries) as [[|i is0] out]; inversion H; discriminate.
Qed.

Lemma reports_and_field {A B : Type} (f : fields_parser (A -> B)) (k : string)
    (s : schema A) :
  reports f -> reports s -> reports (and_field f k s).
Proof.
  intros Hf Hs p x issues H. unfold and_field in H.
  destruct (f p x) as [g|is1] eqn:Ef;
    destruct (s (p ++ [Key k]) (prop k x)) as [a|is2] eqn:Es;
    inversion H; subst.
  - exact (Hs _ _ _ Es).
  - exact (Hf _ _ _ Ef).
  - intros Hnil. apply app_eq_nil in Hnil. destruct Hnil as [Hnil _].
    exact (Hf _ _ _ Ef Hnil).
Qed.

Lemma reports_build {A : Type} (a : A) : reports (build a).
Proof. intros p x issues H. discriminate. Qed.

Lemma reports_z_object {A : Type} (f : fields_parser A) :
  reports f -> reports (z_object f).
Proof.
  intros Hf p x issues H. unfold z_object in H.
  destruct x; try (inversion H; discriminate). exact (Hf _ _ _ H).
Qed.

Lemma reports_z_object_passthrough (shape : list (string * schema jsval)) :
  reports (z_object_passthrough shape).
Proof.
  intros p x issues H. unfold z_object_passthrough in H.
  destruct x; try (inversion H; discriminate).
  destruct (parse_shape shape p (VObj entries)) as [[|i is0] out];
    inversion H; discriminate.
Qed.

#[local] Hint Resolve reports_z_string reports_z_number reports_z_boolean
  reports_z_enum reports_with_checks reports_transform reports_optional
  reports_default reports_z_array reports_z_record reports_and_field
  reports_build reports_z_object reports_z_object_passthrough : reports.

Lemma reports_IncidentQuerySchema : reports IncidentQuerySchema.
Proof. unfold IncidentQuerySchema, QueryFilterSchema, InstanceNameSchema.
  auto 10 with reports. Qed.

Lemma reports_IncidentGetSchema : reports IncidentGetSchema.
Proof. unfold IncidentGetSchema, InstanceNameSchema. auto 10 with reports. Qed.

Lemma reports_IncidentDeleteSchema : reports IncidentDeleteSchema.
Proof. unfold IncidentDeleteSchema, InstanceNameSchema. auto 10 with reports. Qed.

Lemma invalid_when_not_valid {A : Type} (s : schema A) (args : jsval) :
  reports s -> is_valid (parse s args) = false ->
  parse s args = Invalid (issues_of (parse s args))
  /\ issues_of (parse s args) <> [].
Proof.
  intros Hs H. unfold parse in *. destruct (s [] args) eqn:E; [discriminate|].
  split; [reflexivity|]. exact (Hs _ _ _ E).
Qed.

(* ================================================================= *)
(** ** The report of a failed validation *)

Lemma formatValidationError_lines (issues : list ZodIssue) :
  formatValidationError issues
  = "Validation Error:" +++ nl +++ join nl (map report_line issues).
Proof.
  unfold formatValidationError. do 3 f_equal.
  apply map_ext. intros i. unfold report_line.
  destruct (join "." (map segment_text (path i))) as [|a d]; [reflexivity|].
  cbn [truthy_string]. rewrite append_assoc. reflexivity.
Qed.

Lemma IncidentGetSchema_issues (entries : list (string * jsval)) :
  validation incident_get (VObj entries)
  = flat_map (fun field => snd field [Key (fst field)]
                                   (prop (fst field) (VObj entries)))
             (validated_fields incident_get).
Proof.
  unfold validation, parse, IncidentGetSchema.
  rewrite z_object_on_object, !and_field_issues. unfold build, finds. simpl.
  rewrite app_nil_r, <- !app_assoc. reflexivity.
Qed.

Lemma IncidentDeleteSchema_issues (entries : list (string * jsval)) :
  validation incident_delete (VObj entries)
  = flat_map (fun field => snd field [Key (fst field)]
                                   (prop (fst field) (VObj entries)))
             (validated_fields incident_delete).
Proof.
  unfold validation, parse, IncidentDeleteSchema.
  rewrite z_object_on_object, !and_field_issues. unfold build, finds. simpl.
  rewrite app_nil_r, <- !app_assoc. reflexivity.
Qed.

Lemma passthrough_issues (shape : list (string * schema jsval))
    (entries : list (string * jsval)) :
  issues_of (parse (z_object_passthrough shape) (VObj entries))
  = flat_map (fun field => snd field [Key (fst field)]
                                   (prop (fst field) (VObj entries)))
             (map (fun ks => (fst ks, finds (snd ks))) shape).
Proof.
  unfold parse. rewrite z_object_passthrough_issues, parse_shape_issues.
  rewrite flat_map_concat_map, flat_map_concat_map, map_map. reflexivity.
Qed.

Lemma validation_collects_every_field (op : Operation)
    (entries : list (string * jsval)) :
  validation op (VObj entries)
  = flat_map (fun field => snd field [Key (fst field)]
                                   (prop (fst field) (VObj entries)))
             (validated_fields op).
Proof.
  destruct op.
  - unfold validation. rewrite IncidentQuerySchema_issues. unfold finds. simpl.
    rewrite app_nil_r. reflexivity.
  - apply IncidentGetSchema_issues.
  - apply passthrough_issues.
  - apply passthrough_issues.
  - apply IncidentDeleteSchema_issues.
Qed.

Lemma incidentDelete_throws (args : jsval) :
  validates incident_delete args = false ->
  validation incident_delete args <> []
  /\ incidentDelete args
     = Throw (formatValidationError (validation incident_delete args)).
Proof.
  intros H. simpl in H |- *.
  destruct (invalid_when_not_valid _ args reports_IncidentDeleteSchema H) as [E N].
  split; [exact N|]. unfold incidentDelete. rewrite E. reflexivity.
Qed.

Lemma handler_throws (op : Operation) (args : jsval) :
  validates op args = false ->
  validation op args <> []
  /\ handler op args = Throw (formatValidationError (validation op args)).
Proof.
  intros H. destruct op; simpl in H |- *.
  - destruct (invalid_when_not_valid _ args reports_IncidentQuerySchema H) as [E N].
    split; [exact N|]. unfold incidentQuery. rewrite E. reflexivity.
  - destruct (invalid_when_not_valid _ args reports_IncidentGetSchema H) as [E N].
    split; [exact N|]. unfold incidentGet. rewrite E. reflexivity.
  - destruct (invalid_when_not_valid _ args
                (reports_z_object_passthrough IncidentCreateShape) H) as [E N].
    split; [exact N|]. unfold incidentCreate.
    unfold IncidentCreateSchema in *. rewrite E. reflexivity.
  - destruct (invalid_when_not_valid _ args
                (reports_z_object_passthrough IncidentUpdateShape) H) as [E N].
    split; [exact N|]. unfold incidentUpdate.
    unfold IncidentUpdateSchema in *. rewrite E. reflexivity.
  - exact (incidentDelete_throws args H).
Qed.


(* ================================================================= *)
(** ** The query tool and the query parameter *)

Lemma sysparm_query_param (filter : option QueryFilter)
    (options : option TableQueryOptions) :
  assoc "sysparm_query" (queryTable_params filter options)
  = match filter with
    | Some f => Some (SString (buildEncodedQuery f))
    | None => None
    end.
Proof.
  unfold queryTable_params, opt.
  destruct options as [[l o f d e]|]; simpl;
    destruct filter as [fl|]; simpl;
    repeat match goal with
           | |- context [match ?x with _ => _ end] => destruct x; simpl
           end;
    reflexivity.
Qed.

Lemma QueryFilterSchema_absent (p : list PathSeg) (x : jsval)
    (f : option QueryFilter) :
  QueryFilterSchema p x = Valid f -> (f = None <-> x = VUndefined).
Proof.
  unfold QueryFilterSchema, optional, transform. intros H.
  destruct x; try (inversion H; tauto);
    match type of H with
    | context [z_record ?s ?q ?y] => destruct (z_record s q y)
    end; inversion H; split; intros; discriminate.
Qed.

Lemma QueryFilterSchema_empty (p : list PathSeg) :
  QueryFilterSchema p (VObj []) = Valid (Some []).
Proof. reflexivity. Qed.

Lemma incidentQuery_run (args : jsval) (v : IncidentQueryInput.t)
    (S : Type) (st : Store S) (s : S) :
  parse IncidentQuerySchema args = Valid v ->
  let call := CallQueryTable INCIDENT_TABLE (IncidentQueryInput.filter v)
                (options_of (Some (IncidentQueryInput.limit v))
                            (IncidentQueryInput.fields v)) in
  calls (run st (incidentQuery args) s) = [call]
  /\ forall s',
       on_queryTable st INCIDENT_TABLE (IncidentQueryInput.filter v)
         (options_of (Some (IncidentQueryInput.limit v))
                     (IncidentQueryInput.fields v)) s = (inr [], s') ->
       outcome (run st (incidentQuery args) s) = Returned no_incidents_text.
Proof.
  intros H call. unfold incidentQuery. rewrite H. simpl.
  destruct (on_queryTable st INCIDENT_TABLE (IncidentQueryInput.filter v) _ s)
    as [[e | results] s1] eqn:E.
  - split; [reflexivity|]. intros s' H'. discriminate.
  - split.
    + destruct results; reflexivity.
    + intros s' H'. inversion H'. subst. reflexivity.
Qed.

(** C3 (amended). A query whose filter is the empty mapping serializes it
    to the empty string and sends it: the request carries [sysparm_query]
    with the empty string as its value.  The parameter is left out exactly
    when the payload has no filter at all. *)
Theorem query_filter_parameter (args : jsval) (v : IncidentQueryInput.t) :
  parse IncidentQuerySchema args = Valid v ->
  let options := options_of (Some (IncidentQueryInput.limit v))
                            (IncidentQueryInput.fields v) in
  let request := queryTable_request INCIDENT_TABLE
                   (IncidentQueryInput.filter v) (Some options) in
  (forall (S : Type) (st : Store S) (s : S),
     calls (run st (incidentQuery args) s)
     = [CallQueryTable INCIDENT_TABLE (IncidentQueryInput.filter v) options])
  /\ buildEncodedQuery [] = ""
  /\ (prop "filter" args = VObj [] -> IncidentQueryInput.filter v = Some [])
  /\ (IncidentQueryInput.filter v = Some [] ->
      assoc "sysparm_query" (params request) = Some (SString ""))
  /\ (assoc "sysparm_query" (params request) = None
      <-> prop "filter" args = VUndefined).
Proof.
  intros H options request.
  pose proof (IncidentQuerySchema_valid args v H) as (Hf & _).
  split; [|split; [|split; [|split]]].
  - intros S st s. exact (proj1 (incidentQuery_run args v S st s H)).
  - reflexivity.
  - intros Hempty. rewrite Hempty, QueryFilterSchema_empty in Hf. congruence.
  - intros Hsome. unfold request. simpl params.
    rewrite sysparm_query_param, Hsome. reflexivity.
  - unfold request. simpl params. rewrite sysparm_query_param.
    rewrite <- (QueryFilterSchema_absent _ _ _ Hf).
    destruct (IncidentQueryInput.filter v); split; intros; congruence.
Qed.

(* ================================================================= *)
(** ** The get tool *)

Lemma min_length_1 (msg : option string) (p : list PathSeg) (x : jsval)
    (out : string) :
  with_checks z_string [min_length 1 msg] p x = Valid out ->
  x = VStr out /\ out <> "".
Proof.
  unfold with_checks, z_string. intros H.
  destruct x; try discriminate. simpl in H.
  destruct s as [|c s]; simpl in H; [discriminate|].
  inversion H. split; [reflexivity | discriminate].
Qed.

Lemma min_length_1_accepts (msg : option string) (p : list PathSeg) (out : string) :
  out <> "" -> with_checks z_string [min_length 1 msg] p (VStr out) = Valid out.
Proof.
  intros H. destruct out as [|c out]; [congruence | reflexivity].
Qed.

Lemma parse_items_strings (p : list PathSeg) (i : nat) (items : list jsval)
    (out : list string) :
  parse_items z_string p i items = ([], out) -> as_strings items = Some out.
Proof.
  revert i out. induction items as [|x rest IH]; intros i out H; simpl in *.
  - inversion H. reflexivity.
  - destruct (parse_items z_string p (S i) rest) as [issues o] eqn:E.
    destruct x; simpl in H; try (inversion H; discriminate).
    inversion H. subst. rewrite (IH _ _ E). reflexivity.
Qed.

Lemma optional_string_array (p : list PathSeg) (x : jsval)
    (out : option (list string)) :
  optional (z_array z_string) p x = Valid out ->
  as_optional_string_array x = Some out.
Proof.
  unfold optional, transform, z_array. intros H.
  destruct x; simpl in H; try discriminate.
  - inversion H. reflexivity.
  - destruct (parse_items z_string p 0 items) as [[|i issues] o] eqn:E;
      [|discriminate].
    inversion H. simpl. rewrite (parse_items_strings _ _ _ _ E). reflexivity.
Qed.

Lemma IncidentGetSchema_valid (args : jsval) (v : IncidentGetInput.t) :
  parse IncidentGetSchema args = Valid v ->
  (exists entries, args = VObj entries)
  /\ prop "identifier" args = VStr (IncidentGetInput.identifier v)
  /\ IncidentGetInput.identifier v <> ""
  /\ optional (z_array z_string) [Key "fields"] (prop "fields" args)
     = Valid (IncidentGetInput.fields v).
Proof.
  unfold parse, IncidentGetSchema, z_object. intros H.
  destruct args; try discriminate.
  apply and_field_valid in H. destruct H as (g3 & a3 & H & H3 & ->).
  apply and_field_valid in H. destruct H as (g2 & a2 & H & H2 & ->).
  apply and_field_valid in H. destruct H as (g1 & a1 & H & H1 & ->).
  unfold build in H. inversion H. subst g1. simpl.
  apply min_length_1 in H1. destruct H1 as [H1 N].
  split; [eexists; reflexivity|]. split; [exact H1|]. split; [exact N|].
  exact H2.
Qed.

Lemma incidentGet_run (args : jsval) (v : IncidentGetInput.t)
    (S : Type) (st : Store S) (s : S) :
  parse IncidentGetSchema args = Valid v ->
  let identifier := IncidentGetInput.identifier v in
  let fields := IncidentGetInput.fields v in
  (is_sys_id identifier = true ->
   calls (run st (incidentGet args) s)
   = [CallGetRecord INCIDENT_TABLE identifier (options_of None fields)])
  /\ (is_sys_id identifier = false ->
      calls (run st (incidentGet args) s) = [lookup_by_number identifier fields]
      /\ forall s',
           on_queryTable st INCIDENT_TABLE
             (Some [("number", Literal (SString identifier))])
             (options_of (Some 1%Q) fields) s = (inr [], s') ->
           outcome (run st (incidentGet args) s)
           = Returned (not_found_text identifier)).
Proof.
  intros H identifier fields. unfold incidentGet. rewrite H.
  fold identifier. fold fields. split; intros Hid; rewrite Hid; simpl.
  - destruct (on_getRecord st INCIDENT_TABLE identifier _ s) as [[e|r] s1];
      reflexivity.
  - unfold lookup_by_number.
    destruct (on_queryTable st INCIDENT_TABLE _ _ s) as [[e|results] s1] eqn:E.
    + split; [reflexivity|]. intros s' H'. discriminate.
    + split.
      * destruct results; reflexivity.
      * intros s' H'. inversion H'. subst. reflexivity.
Qed.

(** C8. When the store has no matching record the tools return a text
    and do not fail: a query that yields no record returns exactly
    "No incidents found matching the criteria.", and a get by an identifier
    that is not a 32-digit hexadecimal key and whose lookup yields no
    record returns exactly [Incident "<identifier>" not found.]. *)
Theorem zero_records_are_a_normal_result :
  no_incidents_text = "No incidents found matching the criteria."
  /\ (forall identifier,
        not_found_text identifier
        = "Incident " +++ dquote +++ identifier +++ dquote +++ " not found.")
  /\ (forall args v (S : Type) (st : Store S) (s s' : S),
        parse IncidentQuerySchema args = Valid v ->
        on_queryTable st INCIDENT_TABLE (IncidentQueryInput.filter v)
          (options_of (Some (IncidentQueryInput.limit v))
                      (IncidentQueryInput.fields v)) s = (inr [], s') ->
        outcome (run st (incidentQuery args) s) = Returned no_incidents_text)
  /\ (forall args v (S : Type) (st : Store S) (s s' : S),
        parse IncidentGetSchema args = Valid v ->
        is_sys_id (IncidentGetInput.identifier v) = false ->
        on_queryTable st INCIDENT_TABLE
          (Some [("number", Literal (SString (IncidentGetInput.identifier v)))])
          (options_of (Some 1%Q) (IncidentGetInput.fields v)) s = (inr [], s') ->
        prop "identifier" args = VStr (IncidentGetInput.identifier v)
        /\ outcome (run st (incidentGet args) s)
           = Returned (not_found_text (IncidentGetInput.identifier v))).
Proof.
  split; [reflexivity|]. split; [reflexivity|]. split.
  - intros args v S st s s' H Hs.
    exact (proj2 (incidentQuery_run args v S st s H) s' Hs).
  - intros args v S st s s' H Hid Hs. split.
    + exact (proj1 (proj2 (IncidentGetSchema_valid args v H))).
    + exact (proj2 (proj2 (incidentGet_run args v S st s H) Hid) s' Hs).
Qed.

(* ================================================================= *)
(** ** Identifier resolution in get and update *)

Lemma is_hex_digit_class (c : ascii) :
  is_hex_digit c = existsb (Ascii.eqb c) hex_digits.
Proof. destruct c as [[] [] [] [] [] [] [] []]; vm_compute; reflexivity. Qed.

Lemma is_sys_id_pattern (identifier : string) :
  is_sys_id identifier = true
  <-> String.length identifier = 32
      /\ Forall (fun c => In c hex_digits) (list_ascii_of_string identifier).
Proof.
  unfold is_sys_id. rewrite andb_true_iff, Nat.eqb_eq, forallb_forall, Forall_forall.
  split; intros [Hl Hc]; (split; [exact Hl|]); intros c Hin.
  - specialize (Hc c Hin). rewrite is_hex_digit_class in Hc.
    apply existsb_exists in Hc. destruct Hc as [d [Hd E]].
    apply Ascii.eqb_eq in E. subst d. exact Hd.
  - rewrite is_hex_digit_class. apply existsb_exists. exists c.
    split; [exact (Hc c Hin) | apply Ascii.eqb_refl].
Qed.

Lemma parse_shape_head (k : string) (s : schema jsval)
    (rest : list (string * schema jsval)) (p : list PathSeg) (input : jsval)
    (out : obj) :
  reports s ->
  parse_shape ((k, s) :: rest) p input = ([], out) ->
  exists x out',
    s (p ++ [Key k]) (prop k input) = Valid x
    /\ out = match x with
             | VUndefined => if key_in k input then (k, VUndefined) :: out'
                             else out'
             | _ => (k, x) :: out'
             end.
Proof.
  intros Hs H. simpl in H.
  destruct (parse_shape rest p input) as [issues out'].
  destruct (s (p ++ [Key k]) (prop k input)) as [x|here] eqn:E.
  - exists x, out'. split; [reflexivity|].
    destruct x; inversion H; reflexivity.
  - exfalso. inversion H as [[Hnil Hout]].
    apply app_eq_nil in Hnil. destruct Hnil as [Hnil _].
    exact (Hs _ _ _ E Hnil).
Qed.

Lemma IncidentUpdateSchema_valid (args : jsval) (v : obj) :
  parse IncidentUpdateSchema args = Valid v ->
  (exists entries, args = VObj entries)
  /\ prop "identifier" args = VStr (string_prop "identifier" v)
  /\ string_prop "identifier" v <> "".
Proof.
  unfold parse, IncidentUpdateSchema, z_object_passthrough. intros H.
  destruct args; try discriminate.
  split; [eexists; reflexivity|].
  destruct (parse_shape IncidentUpdateShape [] (VObj entries))
    as [[|i issues] out] eqn:E; [|discriminate].
  inversion H. subst v. clear H.
  unfold IncidentUpdateShape in E.
  apply parse_shape_head in E; [|unfold js_string; auto with reports].
  destruct E as (x & out' & Hx & ->).
  unfold js_string, transform in Hx.
  destruct (with_checks z_string _ _ _) as [a|] eqn:Ea; [|discriminate].
  inversion Hx. subst x. apply min_length_1 in Ea. destruct Ea as [Ea N].
  unfold string_prop. simpl. split; assumption.
Qed.

Lemma incidentUpdate_run (args : jsval) (v : obj)
    (S : Type) (st : Store S) (s : S) :
  parse IncidentUpdateSchema args = Valid v ->
  let identifier := string_prop "identifier" v in
  let updateData := rest_without ["identifier"; "instance"] v in
  let lookup := lookup_by_number identifier (Some ["sys_id"; "number"]) in
  (is_sys_id identifier = true ->
   calls (run st (incidentUpdate args) s)
   = [CallUpdateRecord INCIDENT_TABLE identifier updateData])
  /\ (is_sys_id identifier = false ->
      lookups (calls (run st (incidentUpdate args) s)) = [lookup]
      /\ forall s',
           on_queryTable st INCIDENT_TABLE
             (Some [("number", Literal (SString identifier))])
             (options_of (Some 1%Q) (Some ["sys_id"; "number"])) s = (inr [], s') ->
           calls (run st (incidentUpdate args) s) = [lookup]
           /\ outcome (run st (incidentUpdate args) s)
              = Returned (not_found_text identifier))
  /\ (forall tableName sysId data,
        In (CallUpdateRecord tableName sysId data)
           (calls (run st (incidentUpdate args) s)) ->
        data = updateData).
Proof.
  intros H identifier updateData lookup. unfold incidentUpdate. rewrite H.
  fold identifier. fold updateData.
  destruct (is_sys_id identifier) eqn:Hid; simpl.
  - destruct (on_updateRecord st INCIDENT_TABLE identifier updateData s)
      as [[e|r] s1]; simpl;
      (split; [reflexivity|]); (split; [discriminate|]);
      intros t i d [Hc | []]; inversion Hc; reflexivity.
  - split; [discriminate|].
    destruct (on_queryTable st INCIDENT_TABLE _ _ s) as [[e|results] s1] eqn:E;
      simpl.
    + split.
      * intros _. split; [reflexivity|]. intros s' H'. discriminate.
      * intros t i d [Hc | []]. discriminate.
    + destruct results as [|first rest]; simpl.
      * split.
        -- intros _. split; [reflexivity|]. intros s' H'. split; reflexivity.
        -- intros t i d [Hc | []]. discriminate.
      * destruct (on_updateRecord st INCIDENT_TABLE (sys_id first) updateData s1)
          as [[e|r] s2]; simpl;
          (split;
           [intros _; split; [reflexivity|]; intros s' H'; discriminate
           |intros t i d [Hc | [Hc | []]]; [discriminate|];
            inversion Hc; reflexivity]).
Qed.

(** C4. In get and in update, an identifier of exactly 32 hexadecimal
    digits (either case) causes no lookup query and is itself the key of
    the one call made; any other identifier causes exactly one lookup
    query, on the number field equal to the identifier with limit 1, and
    when that lookup yields no record the tool returns the not-found text
    after that one call. *)
Theorem identifier_resolution :
  (forall identifier,
     is_sys_id identifier = true
     <-> String.length identifier = 32
         /\ Forall (fun c => In c hex_digits) (list_ascii_of_string identifier))
  /\ (forall args v (S : Type) (st : Store S) (s : S),
        parse IncidentGetSchema args = Valid v ->
        let identifier := IncidentGetInput.identifier v in
        let fields := IncidentGetInput.fields v in
        let r := run st (incidentGet args) s in
        prop "identifier" args = VStr identifier
        /\ (is_sys_id identifier = true ->
            lookups (calls r) = []
            /\ calls r = [CallGetRecord INCIDENT_TABLE identifier
                            (options_of None fields)])
        /\ (is_sys_id identifier = false ->
            lookups (calls r) = [lookup_by_number identifier fields]
            /\ forall s',
                 on_queryTable st INCIDENT_TABLE
                   (Some [("number", Literal (SString identifier))])
                   (options_of (Some 1%Q) fields) s = (inr [], s') ->
                 calls r = [lookup_by_number identifier fields]
                 /\ outcome r = Returned (not_found_text identifier)))
  /\ (forall args v (S : Type) (st : Store S) (s : S),
        parse IncidentUpdateSchema args = Valid v ->
        let identifier := string_prop "identifier" v in
        let lookup := lookup_by_number identifier (Some ["sys_id"; "number"]) in
        let r := run st (incidentUpdate args) s in
        prop "identifier" args = VStr identifier
        /\ (is_sys_id identifier = true ->
            lookups (calls r) = []
            /\ calls r = [CallUpdateRecord INCIDENT_TABLE identifier
                            (rest_without ["identifier"; "instance"] v)])
        /\ (is_sys_id identifier = false ->
            lookups (calls r) = [lookup]
            /\ forall s',
                 on_queryTable st INCIDENT_TABLE
                   (Some [("number", Literal (SString identifier))])
                   (options_of (Some 1%Q) (Some ["sys_id"; "number"])) s
                 = (inr [], s') ->
                 calls r = [lookup]
                 /\ outcome r = Returned (not_found_text identifier))).
Proof.
  split; [exact is_sys_id_pattern|]. split.
  - intros args v S st s H identifier fields r.
    destruct (IncidentGetSchema_valid args v H) as (_ & Hp & _).
    destruct (incidentGet_run args v S st s H) as [Hkey Hnum].
    split; [exact Hp|]. split.
    + intros Hid. unfold r. rewrite (Hkey Hid). split; reflexivity.
    + intros Hid. destruct (Hnum Hid) as [Hc Hout]. unfold r. rewrite Hc.
      split; [reflexivity|]. intros s' Hs. split; [reflexivity|].
      exact (Hout s' Hs).
  - intros args v S st s H identifier lookup r.
    destruct (IncidentUpdateSchema_valid args v H) as (_ & Hp & _).
    destruct (incidentUpdate_run args v S st s H) as (Hkey & Hnum & _).
    split; [exact Hp|]. split.
    + intros Hid. unfold r. rewrite (Hkey Hid). split; reflexivity.
    + exact Hnum.
Qed.

(* ================================================================= *)
(** ** The delete tool and its confirmation *)

Lemma identifier_issues_here (msg : option string) :
  reports_here (with_checks z_string [min_length 1 msg]).
Proof.
  intros p x i. unfold with_checks, z_string.
  destruct x; simpl; try (intros [<- | []]; reflexivity).
  destruct s as [|c s]; simpl; [|intros []].
  intros [<- | []]. reflexivity.
Qed.

Lemma instance_issues_here : reports_here InstanceNameSchema.
Proof.
  intros p x i. unfold InstanceNameSchema, optional, transform, z_enum.
  destruct x;
    try (cbn [issues_of In]; intros [<- | []]; reflexivity);
    try (cbn [issues_of In]; intros []).
  destruct (existsb (String.eqb s) ["primary"; "dev"; "test"; "prod"]);
    cbn [issues_of In]; [intros []|].
  intros [<- | []]. reflexivity.
Qed.

Lemma InstanceNameSchema_accepts (p : list PathSeg) (x : jsval) :
  x = VUndefined
  \/ (exists name, In name instance_names /\ x = VStr name) ->
  exists out, InstanceNameSchema p x = Valid out.
Proof.
  intros [-> | (name & Hin & ->)].
  - exists None. reflexivity.
  - exists (Some name). unfold instance_names in Hin. simpl in Hin.
    repeat (destruct Hin as [<- | Hin]; [reflexivity|]). contradiction.
Qed.

Lemma confirm_issues (p : list PathSeg) (x : jsval) :
  let s := with_checks z_boolean
             [refine (fun val => Bool.eqb val true)
                "Deletion requires explicit confirmation. Set confirm to true."] in
  (x = VBool true -> s p x = Valid true)
  /\ (x = VUndefined \/ x = VBool false ->
      exists i, issues_of (s p x) = [i] /\ path i = p).
Proof.
  intros s. split.
  - intros ->. reflexivity.
  - intros [-> | ->]; eexists; split; reflexivity.
Qed.

Lemma IncidentDeleteSchema_three_fields (entries : list (string * jsval)) :
  let args := VObj entries in
  validation incident_delete args
  = issues_of (with_checks z_string
                 [min_length 1 (Some "Identifier cannot be empty")]
                 [Key "identifier"] (prop "identifier" args))
    ++ issues_of (with_checks z_boolean
                    [refine (fun val => Bool.eqb val true)
                       "Deletion requires explicit confirmation. Set confirm to true."]
                    [Key "confirm"] (prop "confirm" args))
    ++ issues_of (InstanceNameSchema [Key "instance"] (prop "instance" args)).
Proof.
  intros args. subst args. rewrite IncidentDeleteSchema_issues.
  unfold validated_fields, finds. simpl. rewrite app_nil_r. reflexivity.
Qed.

Lemma confirm_needs_object (args : jsval) (b : bool) :
  prop "confirm" args = VBool b -> exists entries, args = VObj entries.
Proof. destruct args; simpl; intros H; try discriminate. eexists; reflexivity. Qed.

Lemma incidentDelete_run (args : jsval) (v : IncidentDeleteInput.t)
    (S : Type) (st : Store S) (s : S) :
  parse IncidentDeleteSchema args = Valid v ->
  let identifier := IncidentDeleteInput.identifier v in
  let lookup := lookup_by_number identifier (Some ["sys_id"; "number"]) in
  let r := run st (incidentDelete args) s in
  (is_sys_id identifier = true ->
   hd_error (calls r) = Some (fetch_for_delete identifier)
   /\ forall incident s',
        on_getRecord st INCIDENT_TABLE identifier
          (options_of None (Some ["sys_id"; "number"])) s = (inr incident, s') ->
        calls r = [fetch_for_delete identifier;
                   CallDeleteRecord INCIDENT_TABLE (sys_id incident)])
  /\ (is_sys_id identifier = false ->
      hd_error (calls r) = Some lookup
      /\ forall first rest s',
           on_queryTable st INCIDENT_TABLE
             (Some [("number", Literal (SString identifier))])
             (options_of (Some 1%Q) (Some ["sys_id"; "number"])) s
           = (inr (first :: rest), s') ->
           calls r = [lookup; CallDeleteRecord INCIDENT_TABLE (sys_id first)]).
Proof.
  intros H identifier lookup r. unfold r, incidentDelete. rewrite H.
  fold identifier.
  destruct (is_sys_id identifier) eqn:Hid; simpl.
  - split; [|discriminate]. intros _.
    destruct (on_getRecord st INCIDENT_TABLE identifier _ s) as [[e|incident] s1];
      simpl.
    + split; [reflexivity|]. intros i s' H'. discriminate.
    + destruct (on_deleteRecord st INCIDENT_TABLE (sys_id incident) s1)
        as [[e|[]] s2]; simpl;
        (split; [reflexivity|]); intros i s' H'; inversion H'; reflexivity.
  - split; [discriminate|]. intros _.
    destruct (on_queryTable st INCIDENT_TABLE _ _ s) as [[e|results] s1];
      simpl.
    + split; [reflexivity|]. intros f rs s' H'. discriminate.
    + destruct results as [|first rest]; simpl.
      * split; [reflexivity|]. intros f rs s' H'. discriminate.
      * destruct (on_deleteRecord st INCIDENT_TABLE (sys_id first) s1)
          as [[e|[]] s2]; simpl;
          (split; [reflexivity|]); intros f rs s' H'; inversion H'; reflexivity.
Qed.

(** C5. A delete payload whose [confirm] is absent or false fails
    validation (with an issue at [confirm] when the payload is an object)
    and the tool throws before any call to the store.  With [confirm] true
    no issue is raised at [confirm]; when the identifier is a non-empty
    string and the instance, if given, is one of the known names, the
    payload validates and the tool goes on to resolve the identifier (a
    fetch by key or a lookup by number) and then deletes by the key that the
    resolution found. *)
Theorem delete_requires_confirm :
  (forall args,
     prop "confirm" args = VUndefined \/ prop "confirm" args = VBool false ->
     validates incident_delete args = false
     /\ (forall entries,
           args = VObj entries ->
           exists i, In i (validation incident_delete args)
                     /\ path i = [Key "confirm"])
     /\ (forall (S : Type) (st : Store S) (s : S),
           run st (incidentDelete args) s
           = failed_before_any_call s
               (formatValidationError (validation incident_delete args))))
  /\ (forall args,
        prop "confirm" args = VBool true ->
        (forall i, In i (validation incident_delete args) ->
                   path i <> [Key "confirm"])
        /\ (forall identifier,
              prop "identifier" args = VStr identifier ->
              identifier <> "" ->
              prop "instance" args = VUndefined
              \/ (exists name, In name instance_names
                               /\ prop "instance" args = VStr name) ->
              exists v,
                parse IncidentDeleteSchema args = Valid v
                /\ IncidentDeleteInput.identifier v = identifier
                /\ IncidentDeleteInput.confirm v = true
                /\ forall (S : Type) (st : Store S) (s : S),
                     let lookup :=
                       lookup_by_number identifier (Some ["sys_id"; "number"]) in
                     let r := run st (incidentDelete args) s in
                     (is_sys_id identifier = true ->
                      hd_error (calls r) = Some (fetch_for_delete identifier)
                      /\ forall incident s',
                           on_getRecord st INCIDENT_TABLE identifier
                             (options_of None (Some ["sys_id"; "number"])) s
                           = (inr incident, s') ->
                           calls r
                           = [fetch_for_delete identifier;
                              CallDeleteRecord INCIDENT_TABLE (sys_id incident)])
                     /\ (is_sys_id identifier = false ->
                         hd_error (calls r) = Some lookup
                         /\ forall first rest s',
                              on_queryTable st INCIDENT_TABLE
                                (Some [("number", Literal (SString identifier))])
                                (options_of (Some 1%Q) (Some ["sys_id"; "number"])) s
                              = (inr (first :: rest), s') ->
                              calls r
                              = [lookup;
                                 CallDeleteRecord INCIDENT_TABLE (sys_id first)]))).
Proof.
  split.
  - intros args Hc.
    assert (validates incident_delete args = false
            /\ forall entries, args = VObj entries ->
                 exists i, In i (validation incident_delete args)
                           /\ path i = [Key "confirm"]) as [Hv Hi].
    { destruct args as [ | | | | | |entries];
        try (split; [reflexivity | intros entries He; discriminate]).
      destruct (proj2 (confirm_issues [Key "confirm"]
                         (prop "confirm" (VObj entries))) Hc) as (i & Hi & Hp).
      pose proof (IncidentDeleteSchema_three_fields entries) as HI.
      cbv zeta in HI. rewrite Hi in HI.
      assert (In i (validation incident_delete (VObj entries))) as Hin.
      { rewrite HI. apply in_or_app. right. left. reflexivity. }
      split.
      - unfold validates. unfold validation in Hin.
        destruct (parse IncidentDeleteSchema (VObj entries)); [destruct Hin|].
        reflexivity.
      - intros entries' _. exists i. split; assumption. }
    split; [exact Hv|]. split; [exact Hi|].
    intros S st s. destruct (incidentDelete_throws args Hv) as [_ E].
    rewrite E. reflexivity.
  - intros args Hc.
    destruct (confirm_needs_object args true Hc) as [entries ->].
    pose proof (IncidentDeleteSchema_three_fields entries) as HI.
    cbv zeta in HI.
    rewrite (proj1 (confirm_issues [Key "confirm"] _) Hc) in HI.
    cbn [issues_of app] in HI.
    split.
    + intros i Hin. rewrite HI in Hin.
      apply in_app_or in Hin. destruct Hin as [Hin | Hin].
      * apply identifier_issues_here in Hin. rewrite Hin. discriminate.
      * apply instance_issues_here in Hin. rewrite Hin. discriminate.
    + intros identifier Hid Hne Hinst.
      destruct (InstanceNameSchema_accepts [Key "instance"] _ Hinst) as [inst Hi].
      exists (IncidentDeleteInput.mk identifier true inst).
      assert (parse IncidentDeleteSchema (VObj entries)
              = Valid (IncidentDeleteInput.mk identifier true inst)) as Hv.
      { unfold parse, IncidentDeleteSchema. rewrite z_object_on_object.
        unfold and_field, build. simpl app.
        rewrite Hid, (min_length_1_accepts _ _ _ Hne).
        rewrite (proj1 (confirm_issues [Key "confirm"] _) Hc), Hi.
        reflexivity. }
      split; [exact Hv|]. split; [reflexivity|]. split; [reflexivity|].
      intros S st s. exact (incidentDelete_run _ _ S st s Hv).
Qed.

(* ================================================================= *)
(** ** The payload of an update *)

(** In the validated update tool, the data of the update call is the
    validated input without [identifier] and [instance]: those two keys are
    never in it, and every other key has the value it has in the validated
    input. *)
Lemma incidentUpdate_data (args : jsval) (v : obj)
    (S : Type) (st : Store S) (s : S) (tableName sysId : string) (data : obj) :
  parse IncidentUpdateSchema args = Valid v ->
  In (CallUpdateRecord tableName sysId data)
     (calls (run st (incidentUpdate args) s)) ->
  assoc "identifier" data = None
  /\ assoc "instance" data = None
  /\ forall k, k <> "identifier" -> k <> "instance" -> assoc k data = assoc k v.
Proof.
  intros H Hin.
  destruct (incidentUpdate_run args v S st s H) as (_ & _ & Hd).
  rewrite (Hd _ _ _ Hin). rewrite !assoc_rest_without.
  split; [reflexivity|]. split; [reflexivity|].
  intros k H1 H2. rewrite assoc_rest_without. cbn [existsb].
  apply String.eqb_neq in H1. apply String.eqb_neq in H2.
  rewrite H1, H2. reflexivity.
Qed.

Lemma parse_shape_keys (shape : list (string * schema jsval))
    (p : list PathSeg) (input : jsval) (k : string) :
  existsb (String.eqb k) (map fst shape) = false ->
  assoc k (snd (parse_shape shape p input)) = None.
Proof.
  induction shape as [|[k' s0] rest IH]; simpl; intros H.
  - reflexivity.
  - apply orb_false_iff in H. destruct H as [Hk Hrest].
    specialize (IH Hrest).
    destruct (parse_shape rest p input) as [issues out]. simpl in IH.
    destruct (s0 (p ++ [Key k']) (prop k' input)) as [x|here]; simpl.
    + destruct x; simpl; rewrite ?Hk; try exact IH.
      destruct (key_in k' input); simpl; rewrite ?Hk; exact IH.
    + exact IH.
Qed.

Lemma assoc_unknown_keys (shape : list (string * schema jsval))
    (entries : obj) (k : string) :
  existsb (String.eqb k) (map fst shape) = false ->
  k <> "__proto__" ->
  assoc k (unknown_keys shape entries) = assoc k entries.
Proof.
  intros Hk Hp. apply String.eqb_neq in Hp. unfold unknown_keys.
  induction entries as [|[k' x] rest IH]; simpl.
  - reflexivity.
  - destruct (String.eqb k k') eqn:E.
    + apply String.eqb_eq in E. subst k'. rewrite Hk, Hp. simpl.
      rewrite String.eqb_refl. reflexivity.
    + destruct (negb (existsb (String.eqb k') (map fst shape))
                && negb (String.eqb k' "__proto__")); simpl;
        rewrite ?E; exact IH.
Qed.

(** The validated input of an update keeps every key that the schema does
    not name, with the value of the payload. *)
Lemma IncidentUpdateSchema_keeps_unknown_keys (entries : obj) (v : obj)
    (k : string) :
  parse IncidentUpdateSchema (VObj entries) = Valid v ->
  existsb (String.eqb k) (map fst IncidentUpdateShape) = false ->
  k <> "__proto__" ->
  assoc k v = assoc k entries.
Proof.
  unfold parse, IncidentUpdateSchema, z_object_passthrough. intros H Hk Hp.
  pose proof (parse_shape_keys IncidentUpdateShape [] (VObj entries) k Hk) as Hs.
  destruct (parse_shape IncidentUpdateShape [] (VObj entries))
    as [[|i issues] out]; [|discriminate].
  inversion H. subst v. simpl in Hs.
  rewrite (assoc_app_none _ _ _ Hs).
  exact (assoc_unknown_keys IncidentUpdateShape entries k Hk Hp).
Qed.

(** In the tool as it was before validation, only [identifier] is taken
    out: an [instance] of the arguments stays in the data. *)
Lemma legacy_incidentUpdate_data (entries : list (string * jsval))
    (identifier : string) :
  prop "identifier" (VObj entries) = VStr identifier ->
  is_sys_id identifier = true ->
  exists p,
    legacy_incidentUpdate (VObj entries) = Some p
    /\ forall (S : Type) (st : Store S) (s : S),
         calls (run st p s)
         = [CallUpdateRecord INCIDENT_TABLE identifier
              (rest_without ["identifier"] entries)]
         /\ assoc "instance" (rest_without ["identifier"] entries)
            = assoc "instance" entries.
Proof.
  intros Hid Hsys. unfold legacy_incidentUpdate. rewrite Hid. cbn [as_string].
  cbv zeta. rewrite Hsys. eexists. split; [reflexivity|]. intros S st s. split.
  - simpl. destruct (on_updateRecord st INCIDENT_TABLE identifier _ s)
      as [[e|r] s1]; reflexivity.
  - rewrite assoc_rest_without. reflexivity.
Qed.

(* ================================================================= *)
(** ** The get tool before and after validation *)

(** C10. On every payload that the get schema accepts, the get tool as it
    was before validation is the same program as the validated one: under
    every store and from every state of it, the two make the same calls,
    end with the same result and leave the store in the same state. *)
Theorem legacy_get_agrees (args : jsval) (v : IncidentGetInput.t) :
  parse IncidentGetSchema args = Valid v ->
  legacy_incidentGet args = Some (incidentGet args)
  /\ exists legacy,
       legacy_incidentGet args = Some legacy
       /\ forall (S : Type) (st : Store S) (s : S),
            calls (run st legacy s) = calls (run st (incidentGet args) s)
            /\ outcome (run st legacy s) = outcome (run st (incidentGet args) s)
            /\ final (run st legacy s) = final (run st (incidentGet args) s).
Proof.
  intros H.
  assert (legacy_incidentGet args = Some (incidentGet args)) as E.
  { destruct (IncidentGetSchema_valid args v H) as ([entries ->] & Hid & _ & Hf).
    unfold legacy_incidentGet, incidentGet. rewrite H, Hid.
    cbn [as_string]. rewrite (optional_string_array _ _ _ Hf). reflexivity. }
  split; [exact E|]. exists (incidentGet args). split; [exact E|].
  intros S st s. repeat split.
Qed.

(* ================================================================= *)
(** ** More on the encoded query and the request parameters *)

Lemma join_app (sep : string) (l1 l2 : list string) :
  l1 <> [] -> l2 <> [] ->
  join sep (l1 ++ l2) = join sep l1 +++ sep +++ join sep l2.
Proof.
  unfold join. intros H1 H2. induction l1 as [|x rest IH]; [congruence|].
  destruct rest as [|y rest'].
  - simpl. destruct l2; [congruence | reflexivity].
  - change ((x :: y :: rest') ++ l2) with (x :: (y :: rest') ++ l2).
    change (String.concat sep (x :: (y :: rest') ++ l2))
      with (x +++ sep +++ String.concat sep ((y :: rest') ++ l2)).
    rewrite IH by discriminate.
    change (String.concat sep (x :: y :: rest'))
      with (x +++ sep +++ String.concat sep (y :: rest')).
    rewrite !append_assoc. reflexivity.
Qed.

(** X1. The query of two filters put one after the other is the two queries
    joined by a caret; a filter of one entry is the fragment of the entry. *)
Theorem buildEncodedQuery_app (f1 f2 : QueryFilter) :
  f1 <> [] -> f2 <> [] ->
  buildEncodedQuery (f1 ++ f2)
  = buildEncodedQuery f1 +++ "^" +++ buildEncodedQuery f2.
Proof.
  intros H1 H2. rewrite !buildEncodedQuery_join, map_app.
  apply join_app; intros E; apply map_eq_nil in E; congruence.
Qed.

(** X2. [queryTable] sets each parameter at most once, and each only under its
    own condition: a limit or offset of 0 is left out like an absent one,
    an empty list of fields is sent as an empty [sysparm_fields], and only
    [excludeReferenceLink: true] is sent. *)
Theorem queryTable_params_by_key (filter : option QueryFilter)
    (options : option TableQueryOptions) :
  let params := queryTable_params filter options in
  NoDup (map fst params)
  /\ assoc "sysparm_limit" params
     = match opt options limit with
       | Some n => if Qeq_bool n 0 then None else Some (SNumber n)
       | None => None
       end
  /\ assoc "sysparm_offset" params
     = match opt options offset with
       | Some n => if Qeq_bool n 0 then None else Some (SNumber n)
       | None => None
       end
  /\ assoc "sysparm_fields" params
     = match opt options fields with
       | Some fs => Some (SString (join "," fs))
       | None => None
       end
  /\ assoc "sysparm_display_value" params = opt options displayValue
  /\ assoc "sysparm_exclude_reference_link" params
     = match opt options excludeReferenceLink with
       | Some true => Some (SBoolean true)
       | _ => None
       end.
Proof.
  unfold queryTable_params, opt, truthy_number.
  destruct options as [[l o f d e]|]; simpl;
    destruct filter as [fl|]; simpl;
    repeat match goal with
           | |- context [Qeq_bool ?q 0] => destruct (Qeq_bool q 0); simpl
           | |- context [match ?x with _ => _ end] => destruct x; simpl
           end;
    (split; [repeat (constructor; [simpl; intuition discriminate|]); constructor|]);
    repeat split.
Qed.

(** X3. [getRecord] sends what a query without filter, limit and offset
    sends: of its options only the fields, the display value and the
    exclusion of reference links reach the request. *)
Theorem getRecord_params_as_query (options : option TableQueryOptions) :
  getRecord_params options
  = queryTable_params None
      (match options with
       | Some o => Some {| limit := None; offset := None; fields := fields o;
                           displayValue := displayValue o;
                           excludeReferenceLink := excludeReferenceLink o |}
       | None => None
       end)
  /\ assoc "sysparm_query" (getRecord_params options) = None
  /\ assoc "sysparm_limit" (getRecord_params options) = None
  /\ assoc "sysparm_offset" (getRecord_params options) = None.
Proof.
  unfold getRecord_params, queryTable_params, opt.
  destruct options as [[l o f d e]|]; simpl;
    repeat match goal with
           | |- context [match ?x with _ => _ end] => destruct x; simpl
           end;
    repeat split.
Qed.

(* ================================================================= *)
(** ** The errors of the client *)

Lemma prefix_append (a b : string) : String.prefix a (a +++ b) = true.
Proof.
  induction a as [|c a IH]; simpl.
  - destruct b; reflexivity.
  - destruct (ascii_dec c c); [exact IH | congruence].
Qed.

Lemma kind_prefix_of_message (instanceUrl : string) (error : Caught)
    (context : string) :
  exists rest,
    handleError instanceUrl error context
    = (kind_prefix error +++ context +++ "): ") +++ rest.
Proof.
  destruct error as [status [data|] m | | m | m]; simpl;
    eexists; rewrite !append_assoc; simpl; rewrite ?append_assoc; reflexivity.
Qed.

(** X4. The message that [handleError] builds starts with the words of the
    kind of the error and the context in parentheses; messages of two
    different kinds are never equal, whatever the contexts; and an empty
    detail of an error body is left out like an absent one. *)
Theorem handleError_kinds (instanceUrl : string) (error : Caught)
    (context : string) :
  starts_with (kind_prefix error +++ context +++ "): ")
    (handleError instanceUrl error context) = true
  /\ (forall instanceUrl2 error2 context2,
        same_kind error error2 = false ->
        handleError instanceUrl error context
        <> handleError instanceUrl2 error2 context2)
  /\ (forall status msg axiosMessage,
        handleError instanceUrl
          (WithResponse status
             (Some {| error_message := msg; error_detail := Some "" |})
             axiosMessage) context
        = handleError instanceUrl
            (WithResponse status
               (Some {| error_message := msg; error_detail := None |})
               axiosMessage) context).
Proof.
  split; [|split].
  - destruct (kind_prefix_of_message instanceUrl error context) as [rest ->].
    apply prefix_append.
  - intros url2 e2 c2 Hk E.
    apply (f_equal (String.substring 0 14)) in E.
    destruct error as [st [d|] m | | m | m];
      destruct e2 as [st2 [d2|] m2 | | m2 | m2];
      simpl in Hk; try discriminate; simpl in E; discriminate.
  - intros. reflexivity.
Qed.

(* ================================================================= *)
(** ** Filters pass validation unchanged *)

Lemma QueryValueSchema_round_trip (p : list PathSeg) (v : QueryValue) :
  QueryValueSchema p (query_value v) = Valid v.
Proof.
  destruct v as [x | op x].
  - destruct x; reflexivity.
  - destruct op; destruct x; reflexivity.
Qed.

Lemma parse_entries_round_trip (p : list PathSeg) (f : QueryFilter) :
  Forall (fun e => fst e <> "__proto__") f ->
  parse_entries QueryValueSchema p (map (fun e => (fst e, query_value (snd e))) f)
  = ([], f).
Proof.
  induction 1 as [|[k v] rest Hk _ IH]; simpl.
  - reflexivity.
  - rewrite IH. simpl in Hk. apply String.eqb_neq in Hk. rewrite Hk.
    rewrite QueryValueSchema_round_trip. reflexivity.
Qed.

Lemma QueryFilterSchema_round_trip (p : list PathSeg) (f : QueryFilter) :
  Forall (fun e => fst e <> "__proto__") f ->
  QueryFilterSchema p (filter_object f) = Valid (Some f).
Proof.
  intros H. unfold QueryFilterSchema, optional, transform, z_record, filter_object.
  rewrite (parse_entries_round_trip p f H). reflexivity.
Qed.

Lemma z_operator_accepts (p : list PathSeg) (s : string) :
  (exists op, z_operator p (VStr s) = Valid op)
  <-> In s (map operator_text all_operators).
Proof.
  split.
  - intros [op H]. unfold z_operator in H.
    destruct (find (fun o => String.eqb s (operator_text o)) all_operators)
      as [o|] eqn:E; [|discriminate].
    apply find_some in E. destruct E as [Hin Hs].
    apply String.eqb_eq in Hs. subst s. apply in_map. exact Hin.
  - intros Hin. simpl in Hin.
    repeat (destruct Hin as [<- | Hin]; [eexists; reflexivity|]).
    contradiction.
Qed.

(** X5. A filter whose values are scalars or operator objects passes the
    query schema as it is, entry for entry and in order (a key [__proto__]
    apart), and that is the filter the store is queried with: validation
    converts no value of a filter, a label of a state or priority
    included.  The operators accepted are exactly the fourteen texts. *)
Theorem filter_is_passed_unchanged (f : QueryFilter) :
  Forall (fun e => fst e <> "__proto__") f ->
  parse IncidentQuerySchema (VObj [("filter", filter_object f)])
  = Valid (IncidentQueryInput.mk (Some f) 100%Q None None)
  /\ (forall (S : Type) (st : Store S) (s : S),
        calls (run st (incidentQuery (VObj [("filter", filter_object f)])) s)
        = [CallQueryTable INCIDENT_TABLE (Some f) (options_of (Some 100%Q) None)])
  /\ (forall p s,
        (exists op, z_operator p (VStr s) = Valid op)
        <-> In s (map operator_text all_operators)).
Proof.
  intros H.
  assert (parse IncidentQuerySchema (VObj [("filter", filter_object f)])
          = Valid (IncidentQueryInput.mk (Some f) 100%Q None None)) as E.
  { unfold parse, IncidentQuerySchema. rewrite z_object_on_object.
    unfold and_field, build.
    change (prop "filter" (VObj [("filter", filter_object f)]))
      with (filter_object f).
    rewrite (QueryFilterSchema_round_trip _ f H). reflexivity. }
  split; [exact E|]. split.
  - intros S st s. exact (proj1 (incidentQuery_run _ _ S st s E)).
  - intros p s. apply z_operator_accepts.
Qed.

(* ================================================================= *)
(** ** The fields of an object that keeps its unknown keys *)

Lemma parse_shape_cons (k : string) (s : schema jsval)
    (rest : list (string * schema jsval)) (p : list PathSeg) (input : jsval)
    (out : obj) :
  reports s ->
  parse_shape ((k, s) :: rest) p input = ([], out) ->
  exists x out',
    s (p ++ [Key k]) (prop k input) = Valid x
    /\ parse_shape rest p input = ([], out')
    /\ out = match x with
             | VUndefined => if key_in k input then (k, VUndefined) :: out'
                             else out'
             | _ => (k, x) :: out'
             end.
Proof.
  intros Hs H. simpl in H.
  destruct (parse_shape rest p input) as [issues out'].
  destruct (s (p ++ [Key k]) (prop k input)) as [x|here] eqn:E.
  - exists x, out'. split; [reflexivity|].
    destruct x; inversion H; subst; split; reflexivity.
  - exfalso. inversion H as [[Hnil Hout]].
    apply app_eq_nil in Hnil. destruct Hnil as [Hnil _].
    exact (Hs _ _ _ E Hnil).
Qed.

Lemma parse_shape_lookup (shape : list (string * schema jsval))
    (p : list PathSeg) (input : jsval) (out : obj) (k : string)
    (s : schema jsval) :
  Forall (fun ks => reports (snd ks)) shape ->
  NoDup (map fst shape) ->
  parse_shape shape p input = ([], out) ->
  In (k, s) shape ->
  exists x,
    s (p ++ [Key k]) (prop k input) = Valid x
    /\ assoc k out = match x with
                     | VUndefined => if key_in k input then Some VUndefined
                                     else None
                     | _ => Some x
                     end.
Proof.
  revert out. induction shape as [|[k0 s0] rest IH]; intros out Hr Hn Hp Hin.
  - destruct Hin.
  - inversion Hr as [|? ? Hr0 Hrest]. subst.
    inversion Hn as [|? ? Hnotin Hn']. subst.
    destruct (parse_shape_cons k0 s0 rest p input out Hr0 Hp)
      as (x0 & out' & Hx0 & Hp' & ->).
    assert (assoc k0 out' = None) as Hk0.
    { pose proof (parse_shape_keys rest p input k0) as Hk.
      rewrite Hp' in Hk. apply Hk.
      destruct (existsb (String.eqb k0) (map fst rest)) eqn:E; [|reflexivity].
      apply existsb_exists in E. destruct E as [y [Hy Ey]].
      apply String.eqb_eq in Ey. subst y. contradiction. }
    destruct Hin as [Heq | Hin].
    + inversion Heq. subst k0 s0. exists x0. split; [exact Hx0|].
      destruct x0; simpl; rewrite ?String.eqb_refl; try reflexivity.
      destruct (key_in k input); simpl; rewrite ?String.eqb_refl;
        [reflexivity | exact Hk0].
    + destruct (IH out' Hrest Hn' Hp' Hin) as (x & Hx & Hout).
      exists x. split; [exact Hx|].
      assert (String.eqb k k0 = false) as Hne.
      { apply String.eqb_neq. intros ->. apply Hnotin.
        change k0 with (fst (k0, s)). apply in_map. exact Hin. }
      destruct x0; simpl; rewrite ?Hne; try exact Hout.
      destruct (key_in k0 input); simpl; rewrite ?Hne; exact Hout.
Qed.

Lemma assoc_unknown_keys_of_shape (shape : list (string * schema jsval))
    (entries : obj) (k : string) :
  existsb (String.eqb k) (map fst shape) = true ->
  assoc k (unknown_keys shape entries) = None.
Proof.
  intros Hk. unfold unknown_keys.
  induction entries as [|[k' x] rest IH]; simpl.
  - reflexivity.
  - destruct (negb (existsb (String.eqb k') (map fst shape))
              && negb (String.eqb k' "__proto__")) eqn:E; simpl.
    + destruct (String.eqb k k') eqn:Ek; [|exact IH].
      apply String.eqb_eq in Ek. subst k'. rewrite Hk in E. discriminate.
    + exact IH.
Qed.

Lemma passthrough_lookup (shape : list (string * schema jsval))
    (p : list PathSeg) (entries : obj) (v : obj) (k : string)
    (s : schema jsval) :
  Forall (fun ks => reports (snd ks)) shape ->
  NoDup (map fst shape) ->
  z_object_passthrough shape p (VObj entries) = Valid v ->
  In (k, s) shape ->
  exists x,
    s (p ++ [Key k]) (prop k (VObj entries)) = Valid x
    /\ assoc k v = match x with
                   | VUndefined => if has_key k entries then Some VUndefined
                                   else None
                   | _ => Some x
                   end.
Proof.
  intros Hr Hn H Hin. unfold z_object_passthrough in H.
  destruct (parse_shape shape p (VObj entries)) as [[|i issues] out] eqn:E;
    [|discriminate].
  inversion H. subst v.
  destruct (parse_shape_lookup shape p (VObj entries) out k s Hr Hn E Hin)
    as (x & Hx & Hout).
  exists x. split; [exact Hx|].
  assert (existsb (String.eqb k) (map fst shape) = true) as Hk.
  { apply existsb_exists. exists k. split; [|apply String.eqb_refl].
    change k with (fst (k, s)). apply in_map. exact Hin. }
  destruct (assoc k out) as [y|] eqn:Ey.
  - rewrite (assoc_app_some _ _ _ _ Ey). exact Hout.
  - rewrite (assoc_app_none _ _ _ Ey), (assoc_unknown_keys_of_shape _ _ _ Hk).
    exact Hout.
Qed.

Lemma reports_IncidentUpdateShape :
  Forall (fun ks => reports (snd ks)) IncidentUpdateShape.
Proof.
  unfold IncidentUpdateShape, js_string, js_optional_string,
    IncidentStateEnum, IncidentPriorityEnum, IncidentUrgencyEnum,
    InstanceNameSchema.
  repeat constructor; simpl; auto 10 with reports.
Qed.

Lemma reports_IncidentCreateShape :
  Forall (fun ks => reports (snd ks)) IncidentCreateShape.
Proof.
  unfold IncidentCreateShape, js_string, js_optional_string,
    IncidentPriorityEnum, IncidentUrgencyEnum, InstanceNameSchema.
  repeat constructor; simpl; auto 10 with reports.
Qed.

Lemma NoDup_IncidentUpdateShape : NoDup (map fst IncidentUpdateShape).
Proof.
  unfold IncidentUpdateShape. simpl.
  repeat (constructor; [simpl; intuition discriminate|]). constructor.
Qed.

Lemma NoDup_IncidentCreateShape : NoDup (map fst IncidentCreateShape).
Proof.
  unfold IncidentCreateShape. simpl.
  repeat (constructor; [simpl; intuition discriminate|]). constructor.
Qed.

(* ================================================================= *)
(** ** The data of a create *)

Lemma assoc_set_prop (k k' : string) (x : jsval) (o : obj) :
  assoc k (set_prop k' x o) = if String.eqb k k' then Some x else assoc k o.
Proof.
  induction o as [|[k0 x0] rest IH]; simpl.
  - destruct (String.eqb k k'); reflexivity.
  - destruct (String.eqb k' k0) eqn:E0; simpl.
    + apply String.eqb_eq in E0. subst k0.
      destruct (String.eqb k k'); reflexivity.
    + destruct (String.eqb k k0) eqn:E1.
      * apply String.eqb_eq in E1. subst k0.
        rewrite String.eqb_sym in E0. rewrite E0. reflexivity.
      * exact IH.
Qed.

Lemma assoc_set_if_truthy (k k' : string) (x : option string) (o : obj) :
  assoc k (set_if_truthy k' x o)
  = if String.eqb k k' then
      match x with
      | Some s => if truthy_string s then Some (VStr s) else assoc k o
      | None => assoc k o
      end
    else assoc k o.
Proof.
  unfold set_if_truthy. destruct x as [s|]; [|destruct (String.eqb k k'); reflexivity].
  destruct (truthy_string s); [|destruct (String.eqb k k'); reflexivity].
  apply assoc_set_prop.
Qed.

Lemma incidentCreate_run (args : jsval) (v : obj)
    (S : Type) (st : Store S) (s : S) :
  parse IncidentCreateSchema args = Valid v ->
  calls (run st (incidentCreate args) s)
  = [CallCreateRecord INCIDENT_TABLE (incidentData_of v)].
Proof.
  intros H. unfold incidentCreate. rewrite H.
  unfold incidentData_of, createRecord. cbv zeta. cbn [bind run].
  match goal with
  | |- context [on_createRecord st ?t ?d s] =>
      destruct (on_createRecord st t d s) as [[e|r] s1]
  end; reflexivity.
Qed.

Lemma assoc_fold_set (f : string -> option string) (keys : list string)
    (base : obj) (k : string) :
  assoc k (fold_left (fun acc k' => set_if_truthy k' (f k') acc) keys base)
  = if existsb (String.eqb k) keys then
      match f k with
      | Some s => if truthy_string s then Some (VStr s) else assoc k base
      | None => assoc k base
      end
    else assoc k base.
Proof.
  revert base. induction keys as [|k' rest IH]; intros base; simpl.
  - reflexivity.
  - rewrite IH, assoc_set_if_truthy.
    destruct (String.eqb k k') eqn:E; simpl.
    + apply String.eqb_eq in E. subst k'.
      destruct (f k) as [s|]; [destruct (truthy_string s)|];
        destruct (existsb (String.eqb k) rest); reflexivity.
    + reflexivity.
Qed.

Lemma incidentData_lookup (v : obj) (k : string) :
  assoc k (incidentData_of v)
  = if String.eqb k "short_description" then
      Some (prop "short_description" (VObj v))
    else if existsb (String.eqb k) create_optional_fields then
      match optional_string_prop k v with
      | Some s => if truthy_string s then Some (VStr s) else None
      | None => None
      end
    else if String.eqb k "instance" then None
    else assoc k v.
Proof.
  change (incidentData_of v)
    with (fold_left
            (fun acc k' => set_if_truthy k' (optional_string_prop k' v) acc)
            create_optional_fields
            (("short_description", prop "short_description" (VObj v))
             :: rest_without ("short_description" :: create_optional_fields
                              ++ ["instance"]) v)).
  rewrite assoc_fold_set. cbn [assoc].
  rewrite assoc_rest_without. cbn [existsb]. rewrite existsb_app.
  cbn [existsb]. rewrite orb_false_r.
  destruct (String.eqb k "short_description") eqn:E.
  - apply String.eqb_eq in E. subst k.
    replace (existsb (String.eqb "short_description") create_optional_fields)
      with false by reflexivity.
    reflexivity.
  - cbn [orb].
    destruct (existsb (String.eqb k) create_optional_fields);
      destruct (String.eqb k "instance"); cbn [orb];
      try reflexivity;
      destruct (optional_string_prop k v) as [s|];
      try destruct (truthy_string s); reflexivity.
Qed.

Lemma enum_field_output (values : list string) (m : list (string * string))
    (p : list PathSeg) (x : jsval) (c : string) :
  js_optional_string (optional (transform (z_enum values) (mapped_or_self m))) p x
  = Valid (VStr c) ->
  exists raw, x = VStr raw /\ In raw values /\ c = mapped_or_self m raw.
Proof.
  unfold js_optional_string, optional, transform. intros H.
  destruct x; try discriminate;
    try (unfold z_enum in H; simpl in H; discriminate).
  destruct (z_enum values p (VStr s)) as [a|] eqn:E; [|discriminate].
  apply z_enum_valid in E. destruct E as [-> Hin].
  inversion H. exists s. auto.
Qed.

Lemma string_field_output (p : list PathSeg) (x : jsval) (c : string) :
  js_optional_string (optional z_string) p x = Valid (VStr c) -> x = VStr c.
Proof.
  unfold js_optional_string, optional, transform, z_string. intros H.
  destruct x; try discriminate. inversion H. reflexivity.
Qed.

Lemma normalize_of_member (kind : FieldKind) (raw : string) :
  In raw (match kind with
          | state => state_values
          | priority => priority_values
          | urgency_or_impact => urgency_values
          end) ->
  normalize kind raw
  = Valid (mapped_or_self (match kind with
                           | state => stateMap
                           | priority => priorityMap
                           | urgency_or_impact => urgencyMap
                           end) raw).
Proof.
  intros Hin. destruct kind; simpl in Hin;
    repeat (destruct Hin as [<- | Hin]; [reflexivity|]); contradiction.
Qed.

Lemma normalize_gives_code (k : string) (raw c : string) :
  In k ["state"; "priority"; "urgency"; "impact"] ->
  normalize (kind_of_field k) raw = Valid c ->
  In c (codes_of k).
Proof.
  intros Hk H. apply normalize_valid in H. destruct H as [Hin ->].
  simpl in Hk.
  repeat (destruct Hk as [<- | Hk];
          [simpl in Hin;
           repeat (destruct Hin as [<- | Hin]; [simpl; tauto|]); contradiction|]).
  contradiction.
Qed.

(** What the schema of a classification field and of a plain optional
    field of create and update give for a string of the payload. *)
Lemma classified_field (k : string) (v entries : obj)
    (shape : list (string * schema jsval)) (c : string) :
  Forall (fun ks => reports (snd ks)) shape ->
  NoDup (map fst shape) ->
  z_object_passthrough shape [] (VObj entries) = Valid v ->
  In (k, js_optional_string
           (optional (enum_of_kind (kind_of_field k)))) shape ->
  assoc k v = Some (VStr c) ->
  exists raw,
    prop k (VObj entries) = VStr raw
    /\ normalize (kind_of_field k) raw = Valid c.
Proof.
  intros Hr Hn Hv Hin Hc.
  destruct (passthrough_lookup shape [] entries v k _ Hr Hn Hv Hin)
    as (x & Hx & Hout).
  rewrite Hc in Hout.
  assert (x = VStr c) as ->.
  { destruct x; try (inversion Hout; reflexivity).
    destruct (has_key k entries); discriminate. }
  simpl app in Hx.
  destruct (kind_of_field k); simpl enum_of_kind in Hx;
    unfold IncidentStateEnum, IncidentPriorityEnum, IncidentUrgencyEnum in Hx;
    apply enum_field_output in Hx; destruct Hx as (raw & Hraw & Hin' & ->);
    exists raw; (split; [exact Hraw|]);
    [exact (normalize_of_member state raw Hin')
    |exact (normalize_of_member priority raw Hin')
    |exact (normalize_of_member urgency_or_impact raw Hin')].
Qed.

Lemma IncidentCreateSchema_short_description (args : jsval) (v : obj) :
  parse IncidentCreateSchema args = Valid v ->
  exists entries sd,
    args = VObj entries
    /\ prop "short_description" args = VStr sd
    /\ sd <> ""
    /\ assoc "short_description" v = Some (VStr sd).
Proof.
  unfold parse, IncidentCreateSchema. intros H.
  destruct args; try discriminate.
  assert (In ("short_description",
              js_string (with_checks z_string
                [min_length 1
                   (Some "Short description is required and cannot be empty")]))
             IncidentCreateShape) as Hin by (left; reflexivity).
  destruct (passthrough_lookup _ [] entries v _ _ reports_IncidentCreateShape
              NoDup_IncidentCreateShape H Hin) as (x & Hx & Hout).
  unfold js_string, transform in Hx.
  destruct (with_checks z_string _ _ _) as [a|] eqn:Ea; [|discriminate].
  inversion Hx. subst x. apply min_length_1 in Ea. destruct Ea as [Ea N].
  exists entries, a. repeat split; assumption.
Qed.

Lemma incidentData_optional (v : obj) (k : string) (x : jsval) :
  In k create_optional_fields ->
  assoc k (incidentData_of v) = Some x ->
  exists c, x = VStr c /\ c <> "" /\ assoc k v = Some (VStr c).
Proof.
  intros Hk Hx. rewrite incidentData_lookup in Hx.
  assert (String.eqb k "short_description" = false) as E1.
  { unfold create_optional_fields in Hk. simpl in Hk.
    repeat (destruct Hk as [<- | Hk]; [reflexivity|]). contradiction. }
  assert (existsb (String.eqb k) create_optional_fields = true) as E2.
  { apply existsb_exists. exists k. split; [exact Hk | apply String.eqb_refl]. }
  rewrite E1, E2 in Hx. unfold optional_string_prop in Hx.
  destruct (assoc k v) as [[ | | | |c| | ]|] eqn:Ev; try discriminate.
  destruct c as [|a c]; [discriminate|]. simpl in Hx. inversion Hx.
  eexists. split; [reflexivity|]. split; [discriminate | reflexivity].
Qed.

(** X6. The create tool, on a payload that validates, makes exactly one call,
    a create.  Its data holds the short description of the payload, a
    non-empty string, and never an [instance]; of the optional named
    fields it holds only non-empty strings, so a field given as the empty
    string is not sent. *)
Theorem create_data_named_fields (args : jsval) (v : obj) :
  parse IncidentCreateSchema args = Valid v ->
  (forall (S : Type) (st : Store S) (s : S),
     calls (run st (incidentCreate args) s)
     = [CallCreateRecord INCIDENT_TABLE (incidentData_of v)])
  /\ (exists sd,
        prop "short_description" args = VStr sd
        /\ sd <> ""
        /\ assoc "short_description" (incidentData_of v) = Some (VStr sd))
  /\ assoc "instance" (incidentData_of v) = None
  /\ (forall k x,
        In k create_optional_fields ->
        assoc k (incidentData_of v) = Some x ->
        exists c, x = VStr c /\ c <> "" /\ assoc k v = Some (VStr c)).
Proof.
  intros H. split; [|split; [|split]].
  - intros S st s. exact (incidentCreate_run args v S st s H).
  - destruct (IncidentCreateSchema_short_description args v H)
      as (entries & sd & -> & Hp & Hn & Hv).
    exists sd. split; [exact Hp|]. split; [exact Hn|].
    rewrite incidentData_lookup. simpl String.eqb. cbn iota.
    unfold prop. rewrite Hv. reflexivity.
  - rewrite incidentData_lookup. reflexivity.
  - intros k x Hk Hx. exact (incidentData_optional v k x Hk Hx).
Qed.

(* ================================================================= *)
(** ** Classification fields reach the store as codes *)

Lemma passthrough_keeps_unknown_keys (shape : list (string * schema jsval))
    (entries v : obj) (k : string) :
  z_object_passthrough shape [] (VObj entries) = Valid v ->
  existsb (String.eqb k) (map fst shape) = false ->
  k <> "__proto__" ->
  assoc k v = assoc k entries.
Proof.
  unfold z_object_passthrough. intros H Hk Hp.
  pose proof (parse_shape_keys shape [] (VObj entries) k Hk) as Hs.
  destruct (parse_shape shape [] (VObj entries)) as [[|i issues] out];
    [|discriminate].
  inversion H. subst v. simpl in Hs.
  rewrite (assoc_app_none _ _ _ Hs).
  exact (assoc_unknown_keys shape entries k Hk Hp).
Qed.

(** X7. In the data of an update a string at [state], [priority],
    [urgency] or [impact], and in the data of a create a string at
    [priority], [urgency] or [impact], is the code that the payload's value
    normalizes to: at these fields the store is never sent a label.  (The
    create schema names no [state]; a [state] of a create is not among
    them.) *)
Theorem classification_fields_are_sent_as_codes :
  (forall args v (S : Type) (st : Store S) (s : S) tableName sysId data k c,
     parse IncidentUpdateSchema args = Valid v ->
     In (CallUpdateRecord tableName sysId data)
        (calls (run st (incidentUpdate args) s)) ->
     In k ["state"; "priority"; "urgency"; "impact"] ->
     assoc k data = Some (VStr c) ->
     (exists raw, prop k args = VStr raw
                  /\ normalize (kind_of_field k) raw = Valid c)
     /\ In c (codes_of k))
  /\ (forall args v (S : Type) (st : Store S) (s : S) tableName data k c,
        parse IncidentCreateSchema args = Valid v ->
        In (CallCreateRecord tableName data)
           (calls (run st (incidentCreate args) s)) ->
        In k ["priority"; "urgency"; "impact"] ->
        assoc k data = Some (VStr c) ->
        (exists raw, prop k args = VStr raw
                     /\ normalize (kind_of_field k) raw = Valid c)
        /\ In c (codes_of k)).
Proof.
  split.
  - intros args v S st s t i data k c H Hin Hk Hc.
    destruct (incidentUpdate_run args v S st s H) as (_ & _ & Hd).
    rewrite (Hd _ _ _ Hin) in Hc. clear Hd Hin.
    destruct (IncidentUpdateSchema_valid args v H) as ([entries ->] & _).
    assert (assoc k v = Some (VStr c)) as Hv.
    { rewrite assoc_rest_without in Hc.
      destruct (existsb (String.eqb k) ["identifier"; "instance"]);
        [discriminate | exact Hc]. }
    assert (exists raw, prop k (VObj entries) = VStr raw
                        /\ normalize (kind_of_field k) raw = Valid c) as Hraw.
    { apply (classified_field k v entries IncidentUpdateShape c
               reports_IncidentUpdateShape NoDup_IncidentUpdateShape H);
        [|exact Hv].
      simpl in Hk. destruct Hk as [<- | [<- | [<- | [<- | []]]]].
      - right. left. reflexivity.
      - do 2 right. left. reflexivity.
      - do 3 right. left. reflexivity.
      - do 4 right. left. reflexivity. }
    split; [exact Hraw|]. destruct Hraw as (raw & _ & Hn).
    exact (normalize_gives_code k raw c Hk Hn).
  - intros args v S st s t data k c H Hin Hk Hc.
    rewrite (incidentCreate_run args v S st s H) in Hin.
    destruct Hin as [Hin | []]. inversion Hin. subst t data. clear Hin.
    destruct (IncidentCreateSchema_short_description args v H)
      as (entries & _ & -> & _).
    assert (In k create_optional_fields) as Hopt.
    { simpl in Hk. destruct Hk as [<- | [<- | [<- | []]]]; simpl; tauto. }
    destruct (incidentData_optional v k _ Hopt Hc) as (c' & Hc' & _ & Hv).
    inversion Hc'. subst c'.
    assert (exists raw, prop k (VObj entries) = VStr raw
                        /\ normalize (kind_of_field k) raw = Valid c) as Hraw.
    { apply (classified_field k v entries IncidentCreateShape c
               reports_IncidentCreateShape NoDup_IncidentCreateShape H);
        [|exact Hv].
      simpl in Hk. destruct Hk as [<- | [<- | [<- | []]]].
      - do 2 right. left. reflexivity.
      - do 3 right. left. reflexivity.
      - do 4 right. left. reflexivity. }
    split; [exact Hraw|]. destruct Hraw as (raw & _ & Hn).
    apply (normalize_gives_code k raw c); [|exact Hn].
    simpl in Hk. simpl. tauto.
Qed.

(** X8. A key of the payload that the schema does not name (and is not
    [__proto__]) reaches the store in the data of an update and of a
    create with the value the payload gives it. *)
Theorem unknown_fields_are_forwarded :
  (forall entries v (S : Type) (st : Store S) (s : S) tableName sysId data k,
     parse IncidentUpdateSchema (VObj entries) = Valid v ->
     In (CallUpdateRecord tableName sysId data)
        (calls (run st (incidentUpdate (VObj entries)) s)) ->
     existsb (String.eqb k) (map fst IncidentUpdateShape) = false ->
     k <> "__proto__" ->
     assoc k data = assoc k entries)
  /\ (forall entries v (S : Type) (st : Store S) (s : S) tableName data k,
        parse IncidentCreateSchema (VObj entries) = Valid v ->
        In (CallCreateRecord tableName data)
           (calls (run st (incidentCreate (VObj entries)) s)) ->
        existsb (String.eqb k) (map fst IncidentCreateShape) = false ->
        k <> "__proto__" ->
        assoc k data = assoc k entries).
Proof.
  split.
  - intros entries v S st s t i data k H Hin Hk Hp.
    destruct (incidentUpdate_run _ v S st s H) as (_ & _ & Hd).
    rewrite (Hd _ _ _ Hin). rewrite assoc_rest_without.
    assert (existsb (String.eqb k) ["identifier"; "instance"] = false) as E.
    { unfold IncidentUpdateShape in Hk. simpl in Hk.
      repeat (apply orb_false_iff in Hk; destruct Hk as [?E Hk]).
      cbn [existsb].
      repeat match goal with
             | H : String.eqb k _ = false |- _ => try rewrite H; clear H
             end.
      reflexivity. }
    rewrite E.
    exact (passthrough_keeps_unknown_keys IncidentUpdateShape entries v k H Hk Hp).
  - intros entries v S st s t data k H Hin Hk Hp.
    rewrite (incidentCreate_run _ v S st s H) in Hin.
    destruct Hin as [Hin | []]. inversion Hin. subst t data.
    rewrite incidentData_lookup.
    pose proof Hk as Hk'. unfold IncidentCreateShape in Hk'. simpl in Hk'.
    repeat (apply orb_false_iff in Hk'; destruct Hk' as [?E Hk']).
    unfold create_optional_fields. cbn [existsb].
    repeat match goal with
           | H : String.eqb k _ = false |- _ => try rewrite H; clear H
           end.
    cbn [orb].
    exact (passthrough_keeps_unknown_keys IncidentCreateShape entries v k H Hk Hp).
Qed.

(* ================================================================= *)
(** ** What the tools call, and when *)

Lemma IncidentDeleteSchema_valid (args : jsval) (v : IncidentDeleteInput.t) :
  parse IncidentDeleteSchema args = Valid v ->
  prop "identifier" args = VStr (IncidentDeleteInput.identifier v)
  /\ IncidentDeleteInput.identifier v <> ""
  /\ prop "confirm" args = VBool true.
Proof.
  unfold parse, IncidentDeleteSchema, z_object. intros H.
  destruct args; try discriminate.
  apply and_field_valid in H. destruct H as (g3 & a3 & H & H3 & ->).
  apply and_field_valid in H. destruct H as (g2 & a2 & H & H2 & ->).
  apply and_field_valid in H. destruct H as (g1 & a1 & H & H1 & ->).
  unfold build in H. inversion H. subst g1. simpl.
  apply min_length_1 in H1. destruct H1 as [H1 N].
  split; [exact H1|]. split; [exact N|].
  unfold with_checks, z_boolean in H2.
  destruct (prop "confirm" (VObj entries)) as [ | |b| | | | ] eqn:Ec;
    try discriminate.
  destruct b; [exact Ec | discriminate].
Qed.

(** X9. Whatever the payload and whatever the store answers, a tool makes at
    most two calls, at most one of them changes the store, and that one
    is of the kind of the tool: query and get only read, create only
    creates, update only updates, delete only deletes; a change is never
    followed by another call. *)
Theorem tools_call_discipline (op : Operation) (args : jsval)
    (S : Type) (st : Store S) (s : S) :
  let cs := calls (run st (handler op args) s) in
  List.length cs <= 2
  /\ List.length (mutations cs) <= 1
  /\ forallb (may_make op) (mutations cs) = true
  /\ (forall c rest before, cs = before ++ c :: rest ->
        is_read c = false -> rest = []).
Proof.
  assert (forall (c0 c1 : Call) c rest before,
            [c0; c1] = before ++ c :: rest ->
            is_read c = false -> is_read c0 = true -> rest = []) as two.
  { intros c0 c1 c rest before E Hc H0.
    destruct before as [|b before]; simpl in E.
    - inversion E. subst. congruence.
    - inversion E. destruct before as [|b' before]; simpl in *.
      + inversion H2. reflexivity.
      + inversion H2. destruct before; discriminate. }
  assert (forall (c0 : Call) c rest before, [c0] = before ++ c :: rest ->
            rest = []) as one.
  { intros c0 c rest before E.
    destruct before as [|b before]; simpl in E.
    - inversion E. reflexivity.
    - inversion E. destruct before; discriminate. }
  assert (forall c rest before, @nil Call = before ++ c :: rest -> rest = [])
    as none.
  { intros c rest before E. destruct before; discriminate. }
  destruct op; simpl handler.
  - unfold incidentQuery. destruct (parse IncidentQuerySchema args) as [v|is0].
    + simpl. destruct (on_queryTable st _ _ _ s) as [[e|results] s1]; simpl.
      * repeat split; auto. intros; eapply one; eauto.
      * destruct results; simpl; repeat split; auto;
          intros; eapply one; eauto.
    + simpl. repeat split; auto. intros; eapply none; eauto.
  - unfold incidentGet. destruct (parse IncidentGetSchema args) as [v|is0].
    + destruct (is_sys_id (IncidentGetInput.identifier v)); simpl.
      * destruct (on_getRecord st _ _ _ s) as [[e|r] s1]; simpl;
          repeat split; auto; intros; eapply one; eauto.
      * destruct (on_queryTable st _ _ _ s) as [[e|results] s1]; simpl;
          [|destruct results; simpl]; repeat split; auto;
          intros; eapply one; eauto.
    + simpl. repeat split; auto. intros; eapply none; eauto.
  - destruct (parse IncidentCreateSchema args) as [v|is0] eqn:E.
    + pose proof (incidentCreate_run args v S st s E) as Hc.
      cbv zeta. rewrite Hc. simpl. repeat split; auto.
      intros; eapply one; eauto.
    + unfold incidentCreate. rewrite E. simpl. repeat split; auto.
      intros; eapply none; eauto.
  - unfold incidentUpdate. destruct (parse IncidentUpdateSchema args) as [v|is0].
    + destruct (is_sys_id (string_prop "identifier" v)); simpl.
      * destruct (on_updateRecord st _ _ _ s) as [[e|r] s1]; simpl;
          repeat split; auto; intros; eapply one; eauto.
      * destruct (on_queryTable st _ _ _ s) as [[e|results] s1]; simpl;
          [repeat split; auto; intros; eapply one; eauto|].
        destruct results as [|first rest0]; simpl;
          [repeat split; auto; intros; eapply one; eauto|].
        destruct (on_updateRecord st _ _ _ s1) as [[e|r] s2]; simpl;
          repeat split; auto; intros; eapply two; eauto.
    + simpl. repeat split; auto. intros; eapply none; eauto.
  - unfold incidentDelete. destruct (parse IncidentDeleteSchema args) as [v|is0].
    + destruct (is_sys_id (IncidentDeleteInput.identifier v)); simpl.
      * destruct (on_getRecord st _ _ _ s) as [[e|r] s1]; simpl;
          [repeat split; auto; intros; eapply one; eauto|].
        destruct (on_deleteRecord st _ _ s1) as [[e|[]] s2]; simpl;
          repeat split; auto; intros; eapply two; eauto.
      * destruct (on_queryTable st _ _ _ s) as [[e|results] s1]; simpl;
          [repeat split; auto; intros; eapply one; eauto|].
        destruct results as [|first rest0]; simpl;
          [repeat split; auto; intros; eapply one; eauto|].
        destruct (on_deleteRecord st _ _ s1) as [[e|[]] s2]; simpl;
          repeat split; auto; intros; eapply two; eauto.
    + simpl. repeat split; auto. intros; eapply none; eauto.
Qed.

(** X10. The delete tool deletes only what the store itself returned: whenever
    it calls delete, the payload had [confirm] true, and the key deleted is
    the [sys_id] of the record that the store gave for the identifier, by
    the fetch for a 32-digit hexadecimal identifier, and otherwise as the
    first record of the lookup by number. *)
Theorem delete_only_what_was_resolved (args : jsval) (S : Type) (st : Store S)
    (s : S) (tableName key : string) :
  In (CallDeleteRecord tableName key) (calls (run st (incidentDelete args) s)) ->
  tableName = INCIDENT_TABLE
  /\ prop "confirm" args = VBool true
  /\ exists identifier,
       prop "identifier" args = VStr identifier
       /\ ((is_sys_id identifier = true
            /\ exists incident s',
                 on_getRecord st INCIDENT_TABLE identifier
                   (options_of None (Some ["sys_id"; "number"])) s
                 = (inr incident, s')
                 /\ key = sys_id incident)
           \/ (is_sys_id identifier = false
               /\ exists first rest s',
                    on_queryTable st INCIDENT_TABLE
                      (Some [("number", Literal (SString identifier))])
                      (options_of (Some 1%Q) (Some ["sys_id"; "number"])) s
                    = (inr (first :: rest), s')
                    /\ key = sys_id first)).
Proof.
  unfold incidentDelete.
  destruct (parse IncidentDeleteSchema args) as [v|is0] eqn:E;
    [|intros []].
  destruct (IncidentDeleteSchema_valid args v E) as (Hid & _ & Hc).
  destruct (is_sys_id (IncidentDeleteInput.identifier v)) eqn:Hsys; simpl.
  - destruct (on_getRecord st _ _ _ s) as [[e|r] s1] eqn:Eg; simpl;
      [intros [H | []]; discriminate|].
    destruct (on_deleteRecord st _ _ s1) as [[e|[]] s2]; simpl;
      intros [H | [H | []]]; try discriminate; inversion H; subst;
      (split; [reflexivity|]); (split; [exact Hc|]);
      exists (IncidentDeleteInput.identifier v); (split; [exact Hid|]);
      left; (split; [exact Hsys|]); exists r, s1; split;
      solve [exact Eg | reflexivity].
  - destruct (on_queryTable st _ _ _ s) as [[e|results] s1] eqn:Eq; simpl;
      [intros [H | []]; discriminate|].
    destruct results as [|first rest0]; simpl;
      [intros [H | []]; discriminate|].
    destruct (on_deleteRecord st _ _ s1) as [[e|[]] s2]; simpl;
      intros [H | [H | []]]; try discriminate; inversion H; subst;
      (split; [reflexivity|]); (split; [exact Hc|]);
      exists (IncidentDeleteInput.identifier v); (split; [exact Hid|]);
      right; (split; [exact Hsys|]); exists first, rest0, s1; split;
      solve [exact Eq | reflexivity].
Qed.

(* ================================================================= *)
(** ** Edges of validation *)

(** X11. A payload that is not an object (none at all, [null], a string, an
    array) fails every tool the same way: one thrown error whose message
    is the heading and a single line without any path. *)
Theorem non_object_payload_is_one_unprefixed_line (op : Operation)
    (args : jsval) :
  (forall entries, args <> VObj entries) ->
  handler op args
  = Throw ("Validation Error:" +++ nl +++ "  - "
           +++ defaultMessage (invalid_type "object") args).
Proof.
  intros H. destruct args; try (destruct op; reflexivity).
  exfalso. exact (H entries eq_refl).
Qed.

Lemma parse_items_issue_at (p : list PathSeg) (start : nat)
    (items : list jsval) (i : nat) (x : jsval) :
  nth_error items i = Some x ->
  (forall str, x <> VStr str) ->
  exists issue,
    In issue (fst (parse_items z_string p start items))
    /\ path issue = p ++ [Index (start + i)].
Proof.
  revert start i. induction items as [|y rest IH]; intros start i Hn Hx.
  - destruct i; discriminate.
  - simpl. destruct (parse_items z_string p (S start) rest) as [issues out] eqn:E.
    destruct i as [|i]; simpl in Hn.
    + inversion Hn. subst y. rewrite Nat.add_0_r.
      destruct x as [ | | | |str| | ];
        try (eexists; split; [left; reflexivity | reflexivity]).
      exfalso. exact (Hx str eq_refl).
    + destruct (IH (S start) i Hn Hx) as (issue & Hin & Hp).
      rewrite E in Hin. simpl in Hin.
      exists issue. split.
      * destruct (z_string (p ++ [Index start]) y); simpl;
          [exact Hin | apply in_or_app; right; exact Hin].
      * rewrite Hp. f_equal. f_equal. f_equal. lia.
Qed.

(** X12. An element of [fields] that is not a string is reported at its own
    index: the get tool's validation holds an issue whose path is
    [fields.<i>], and the line of the report starts with that path. *)
Theorem fields_issue_points_at_the_element (entries : list (string * jsval))
    (items : list jsval) (i : nat) (x : jsval) :
  prop "fields" (VObj entries) = VArr items ->
  nth_error items i = Some x ->
  (forall str, x <> VStr str) ->
  exists issue,
    In issue (validation incident_get (VObj entries))
    /\ path issue = [Key "fields"; Index i]
    /\ report_line issue
       = "  - fields." +++ nat_text i +++ ": " +++ message issue.
Proof.
  intros Hf Hn Hx.
  destruct (parse_items_issue_at [Key "fields"] 0 items i x Hn Hx)
    as (issue & Hin & Hp).
  exists issue. split; [|split].
  - rewrite IncidentGetSchema_issues. unfold validated_fields, finds.
    cbn [flat_map fst snd]. apply in_or_app. right. apply in_or_app. left.
    rewrite Hf. unfold optional, transform, z_array.
    destruct (parse_items z_string [Key "fields"] 0 items) as [[|j js] out];
      [destruct Hin | exact Hin].
  - exact Hp.
  - unfold report_line. rewrite Hp. reflexivity.
Qed.

(* ================================================================= *)
(** ** The limit of a query on the wire *)

Lemma sysparm_limit_of (f : option QueryFilter) (n : Q)
    (fs : option (list string)) :
  assoc "sysparm_limit" (queryTable_params f (Some (options_of (Some n) fs)))
  = if Qeq_bool n 0 then None else Some (SNumber n).
Proof.
  unfold queryTable_params, opt, options_of, truthy_number. simpl.
  destruct f, fs, (Qeq_bool n 0); reflexivity.
Qed.

Lemma limit_is_in_range (p : list PathSeg) (x : jsval) (n : Q) :
  default (with_checks z_number [int; min 1; max 1000]) 100%Q p x = Valid n ->
  Q_is_integer n = true /\ (1 <= n)%Q /\ (n <= 1000)%Q.
Proof.
  intros H. destruct x; try (simpl in H; discriminate).
  - simpl in H. inversion H. repeat split; unfold Qle; simpl; lia.
  - pose proof (limit_on_number p q) as L.
    destruct (Q_is_integer q && Qle_bool 1 q && Qle_bool q 1000) eqn:E.
    + rewrite L in H. inversion H. subst n.
      apply andb_true_iff in E. destruct E as [E E3].
      apply andb_true_iff in E. destruct E as [E1 E2].
      apply Qle_bool_iff in E2. apply Qle_bool_iff in E3. auto.
    + destruct L as (i & issues & L & _). rewrite L in H. discriminate.
Qed.

(** X13. Every query that the query tool sends carries a limit: the request
    for a validated payload has [sysparm_limit], an integer between 1 and
    1000 (100 when the payload gives none). *)
Theorem query_request_always_has_a_limit (args : jsval)
    (v : IncidentQueryInput.t) :
  parse IncidentQuerySchema args = Valid v ->
  let request := queryTable_request INCIDENT_TABLE
                   (IncidentQueryInput.filter v)
                   (Some (options_of (Some (IncidentQueryInput.limit v))
                                     (IncidentQueryInput.fields v))) in
  url request = "/table/incident"
  /\ assoc "sysparm_limit" (params request)
     = Some (SNumber (IncidentQueryInput.limit v))
  /\ Q_is_integer (IncidentQueryInput.limit v) = true
  /\ (1 <= IncidentQueryInput.limit v)%Q
  /\ (IncidentQueryInput.limit v <= 1000)%Q.
Proof.
  intros H request.
  destruct (IncidentQuerySchema_valid args v H) as (_ & Hl & _).
  destruct (limit_is_in_range _ _ _ Hl) as (Hi & H1 & H2).
  split; [reflexivity|]. split; [|auto].
  unfold request. simpl params. rewrite sysparm_limit_of.
  destruct (Qeq_bool (IncidentQueryInput.limit v) 0) eqn:E; [|reflexivity].
  apply Qeq_bool_iff in E. rewrite E in H1. exfalso.
  unfold Qle in H1. simpl in H1. lia.
Qed.

(* ================================================================= *)
(** ** The dispatch of a tool call *)

Lemma incident_tool_named_is_no_generic_tool (name : string) (op : Operation) :
  incident_tool_named name = Some op ->
  String.eqb name "servicenow_test_connection" = false
  /\ String.eqb name "servicenow_query" = false.
Proof.
  unfold incident_tool_named. intros H.
  repeat match type of H with
         | (if String.eqb name ?x then _ else _) = _ =>
             let E := fresh "E" in
             destruct (String.eqb name x) eqn:E;
               [apply String.eqb_eq in E; subst name; split; reflexivity|]
         end.
  discriminate.
Qed.

Lemma truthy_nonempty (n : string) : n <> "" -> truthy_string n = true.
Proof. destruct n; [congruence | reflexivity]. Qed.

(** X14. An instance that has no client is answered before the payload is
    looked at: whatever the tool would do with the payload, valid or not,
    the response is the error response that names the instance and lists
    the instances that have a client, and no store is called. *)
Theorem unconfigured_instance_is_answered_before_validation
    (S : Type) (handleTestConnection handleQuery : jsval -> S -> Run S ToolResponse)
    (tools : Operation -> jsval -> tool string)
    (clients : list (string * Store S)) (defaultInstance name : string)
    (op : Operation) (args : jsval) (n : string) (s : S) :
  incident_tool_named name = Some op ->
  prop "instance" args = VStr n ->
  n <> "" ->
  assoc n clients = None ->
  callTool handleTestConnection handleQuery tools clients defaultInstance
           name args s
  = {| calls := [];
       outcome :=
         Returned {| text := "Error: ServiceNow instance " +++ dquote +++ n
                             +++ dquote
                             +++ " is not configured. Available instances: "
                             +++ join ", " (map fst clients);
                     isError := true |};
       final := s |}.
Proof.
  intros Hn Hi Hne Hc.
  destruct (incident_tool_named_is_no_generic_tool name op Hn) as [E1 E2].
  unfold callTool. rewrite E1, E2, Hn.
  unfold incident_case, getClient. rewrite Hi.
  cbn [truthy]. rewrite (truthy_nonempty n Hne), Hc.
  reflexivity.
Qed.

(** X15. A call of an incident tool runs the tool on one client: the client of
    the default instance when [instance] is missing or falsy, the client of
    the named instance when it is a non-empty string.  The calls and the
    final state are the tool's; what the tool returns is the text of a
    normal response, and what it throws is the text, after [Error: ], of an
    error response. *)
Theorem dispatch_runs_the_tool_on_the_chosen_instance
    (S : Type) (handleTestConnection handleQuery : jsval -> S -> Run S ToolResponse)
    (tools : Operation -> jsval -> tool string)
    (clients : list (string * Store S)) (defaultInstance name : string)
    (op : Operation) (args : jsval) (client : Store S) (s : S) :
  incident_tool_named name = Some op ->
  (truthy (prop "instance" args) = false
   /\ assoc defaultInstance clients = Some client)
  \/ (exists n, prop "instance" args = VStr n /\ n <> ""
                /\ assoc n clients = Some client) ->
  let r := run client (tools op args) s in
  let response := callTool handleTestConnection handleQuery tools clients
                           defaultInstance name args s in
  calls response = calls r
  /\ final response = final r
  /\ outcome response
     = Returned match outcome r with
                | Returned result => {| text := result; isError := false |}
                | Rejected e => {| text := "Error: " +++ e; isError := true |}
                end.
Proof.
  intros Hn Hc r response.
  destruct (incident_tool_named_is_no_generic_tool name op Hn) as [E1 E2].
  assert (getClient clients defaultInstance (prop "instance" args) = inr client)
    as G.
  { unfold getClient. destruct Hc as [[Hf Hd] | (n & Hi & Hne & Ha)].
    - rewrite Hf, Hd. reflexivity.
    - rewrite Hi. cbn [truthy]. rewrite (truthy_nonempty n Hne), Ha.
      reflexivity. }
  unfold response, callTool. rewrite E1, E2, Hn.
  unfold incident_case. rewrite G. fold r. cbn [calls final outcome].
  repeat split. destruct (outcome r); reflexivity.
Qed.


(* ================================================================= *)
(** ** The configuration and the clients made from it *)

Lemma remove_trailing_slash_cons (c d : ascii) (rest : string) :
  Config.remove_trailing_slash (String c (String d rest))
  = String c (Config.remove_trailing_slash (String d rest)).
Proof. reflexivity. Qed.

Lemma remove_trailing_slash_last (s : string) (c : ascii) :
  Config.remove_trailing_slash (s +++ String c "")
  = if Ascii.eqb c "/" then s else s +++ String c "".
Proof.
  induction s as [|a rest IH].
  - reflexivity.
  - destruct rest as [|b rest'].
    + simpl. destruct (Ascii.eqb c "/"); reflexivity.
    + change ((String a (String b rest')) +++ String c "")
        with (String a (String b (rest' +++ String c ""))).
      rewrite remove_trailing_slash_cons.
      change (String b (rest' +++ String c ""))
        with ((String b rest') +++ String c "").
      rewrite IH. destruct (Ascii.eqb c "/"); reflexivity.
Qed.

(** X17. The URL of an instance loses one slash at its end and nothing else:
    a URL that ends in a slash is cut by that slash only (a second slash
    before it stays), and a URL that ends in another character is kept. *)
Theorem url_loses_one_trailing_slash (s : string) (c : ascii) :
  Config.remove_trailing_slash (s +++ "/") = s
  /\ Config.remove_trailing_slash (s +++ "//") = s +++ "/"
  /\ Config.remove_trailing_slash (s +++ String c "")
     = if Ascii.eqb c "/" then s else s +++ String c "".
Proof.
  split; [|split].
  - apply (remove_trailing_slash_last s "/").
  - replace (s +++ "//") with ((s +++ "/") +++ "/").
    + apply (remove_trailing_slash_last (s +++ "/") "/").
    + rewrite append_assoc. reflexivity.
  - apply remove_trailing_slash_last.
Qed.

Lemma loadInstanceConfig_some (env : string -> option string) (prefix : string)
    (i : Config.ServiceNowInstanceConfig) :
  Config.loadInstanceConfig env prefix = Some i ->
  exists u n w,
    env (prefix +++ "_URL") = Some u /\ u <> ""
    /\ env (prefix +++ "_USERNAME") = Some n /\ n <> ""
    /\ env (prefix +++ "_PASSWORD") = Some w /\ w <> ""
    /\ i = {| Config.url := Config.remove_trailing_slash u;
              Config.username := n; Config.password := w |}.
Proof.
  unfold Config.loadInstanceConfig, Config.missing.
  destruct (env (prefix +++ "_URL")) as [u|]; [|discriminate].
  destruct (env (prefix +++ "_USERNAME")) as [n|]; [|discriminate].
  destruct (env (prefix +++ "_PASSWORD")) as [w|]; [|discriminate].
  destruct u, n, w; simpl; try discriminate.
  intros H. inversion H.
  do 3 eexists. repeat split; discriminate.
Qed.

Lemma loadInstanceConfig_none (env : string -> option string) (prefix : string) :
  Config.missing (env (prefix +++ "_URL")) = true
  \/ Config.missing (env (prefix +++ "_USERNAME")) = true
  \/ Config.missing (env (prefix +++ "_PASSWORD")) = true ->
  Config.loadInstanceConfig env prefix = None.
Proof.
  unfold Config.loadInstanceConfig.
  destruct (env (prefix +++ "_URL")) as [u|]; [|reflexivity].
  destruct (env (prefix +++ "_USERNAME")) as [n|]; [|reflexivity].
  destruct (env (prefix +++ "_PASSWORD")) as [w|]; [|reflexivity].
  intros [H | [H | H]]; rewrite H; rewrite ?orb_true_r; reflexivity.
Qed.

Lemma instance_of_loaded (env : string -> option string)
    (config : Config.ServiceNowConfig) :
  Config.loadConfig env = inr config ->
  forall name, In name Config.names ->
    Config.instance_of (Config.instances config) name
    = Config.loadInstanceConfig env (Config.prefix_of name).
Proof.
  unfold Config.loadConfig. cbv zeta.
  destruct (negb _); [discriminate|].
  destruct (Config.instance_of _ _); [|discriminate].
  intros H. inversion H. clear H.
  intros name [<- | [<- | [<- | [<- | []]]]]; reflexivity.
Qed.

Lemma assoc_clients_of (S : Type)
    (connect : Config.ServiceNowInstanceConfig -> Store S)
    (config : Config.ServiceNowConfig) (n : string) :
  assoc n (clients_of connect config)
  = option_map connect (Config.instance_of (Config.instances config) n).
Proof.
  unfold clients_of, Config.instance_of, Config.names. cbn [flat_map].
  unfold Config.instance_of. cbn [String.eqb Ascii.eqb Bool.eqb].
  destruct (Config.primary (Config.instances config)),
           (Config.dev (Config.instances config)),
           (Config.test (Config.instances config)),
           (Config.prod (Config.instances config));
    cbn [app assoc];
    destruct (String.eqb n "primary") eqn:E1; try reflexivity;
    destruct (String.eqb n "dev") eqn:E2; try reflexivity;
    destruct (String.eqb n "test") eqn:E3; try reflexivity;
    destruct (String.eqb n "prod") eqn:E4; try reflexivity;
    apply String.eqb_eq in E1 || apply String.eqb_eq in E2
    || apply String.eqb_eq in E3 || apply String.eqb_eq in E4;
    subst; discriminate.
Qed.

Lemma clients_of_names (S : Type)
    (connect : Config.ServiceNowInstanceConfig -> Store S)
    (config : Config.ServiceNowConfig) :
  map fst (clients_of connect config) = Config.available config.
Proof.
  unfold clients_of, Config.available, Config.instance_of, Config.names.
  cbn [flat_map filter String.eqb Ascii.eqb Bool.eqb].
  destruct (Config.primary (Config.instances config)),
           (Config.dev (Config.instances config)),
           (Config.test (Config.instances config)),
           (Config.prod (Config.instances config)); reflexivity.
Qed.

Lemma chosen_default (env : string -> option string) :
  let chosen :=
    match env "SERVICENOW_DEFAULT_INSTANCE" with
    | Some d =>
        if truthy_string d && existsb (String.eqb d) Config.names
        then d else "primary"
    | None => "primary"
    end in
  (exists d, env "SERVICENOW_DEFAULT_INSTANCE" = Some d
             /\ In d Config.names /\ chosen = d)
  \/ (chosen = "primary"
      /\ forall d, env "SERVICENOW_DEFAULT_INSTANCE" = Some d ->
                   ~ In d Config.names).
Proof.
  cbv zeta. destruct (env "SERVICENOW_DEFAULT_INSTANCE") as [d|].
  - destruct (truthy_string d && existsb (String.eqb d) Config.names) eqn:Et.
    + left. exists d. split; [reflexivity|]. split; [|reflexivity].
      apply andb_true_iff in Et. destruct Et as [_ Et].
      apply existsb_exists in Et. destruct Et as (x & Hx & Ex).
      apply String.eqb_eq in Ex. subst x. exact Hx.
    + right. split; [reflexivity|].
      intros d' Hd' Hin'. injection Hd' as <-.
      assert (truthy_string d = true) as T.
      { destruct Hin' as [<- | [<- | [<- | [<- | []]]]]; reflexivity. }
      assert (existsb (String.eqb d) Config.names = true) as X.
      { apply existsb_exists. exists d. split; [exact Hin'|].
        apply String.eqb_refl. }
      rewrite T, X in Et. discriminate.
  - right. split; [reflexivity|]. intros d Hd. discriminate.
Qed.

(** X18. A configuration that loaded serves its default instance.  The default
    is one of the four names: the one [SERVICENOW_DEFAULT_INSTANCE] gives
    when that is one of them, and [primary] otherwise.  Its three
    variables are set and not empty, its URL is the variable without one
    trailing slash, a request of the configuration without a name gives
    it, and the server has a client for a call without an instance. *)
Theorem loaded_config_serves_its_default (env : string -> option string)
    (config : Config.ServiceNowConfig) :
  Config.loadConfig env = inr config ->
  In (Config.defaultInstance config) Config.names
  /\ (forall d, env "SERVICENOW_DEFAULT_INSTANCE" = Some d ->
        In d Config.names -> Config.defaultInstance config = d)
  /\ ((forall d, env "SERVICENOW_DEFAULT_INSTANCE" = Some d ->
         ~ In d Config.names) ->
      Config.defaultInstance config = "primary")
  /\ exists u n w,
       let prefix := Config.prefix_of (Config.defaultInstance config) in
       let i := {| Config.url := Config.remove_trailing_slash u;
                   Config.username := n; Config.password := w |} in
       env (prefix +++ "_URL") = Some u /\ u <> ""
       /\ env (prefix +++ "_USERNAME") = Some n /\ n <> ""
       /\ env (prefix +++ "_PASSWORD") = Some w /\ w <> ""
       /\ Config.getInstanceConfig config None = inr (Config.Instance i)
       /\ forall (S : Type)
                 (connect : Config.ServiceNowInstanceConfig -> Store S),
            getClient (clients_of connect config)
                      (Config.defaultInstance config) VUndefined
            = inr (connect i).
Proof.
  intros H.
  pose proof (instance_of_loaded env config H) as Hall.
  assert (In (Config.defaultInstance config) Config.names
          /\ (forall d, env "SERVICENOW_DEFAULT_INSTANCE" = Some d ->
                In d Config.names -> Config.defaultInstance config = d)
          /\ ((forall d, env "SERVICENOW_DEFAULT_INSTANCE" = Some d ->
                 ~ In d Config.names) ->
              Config.defaultInstance config = "primary")
          /\ exists i, Config.instance_of (Config.instances config)
                         (Config.defaultInstance config) = Some i)
    as (Hin & Hd & Hp & i & Hi).
  { revert H. unfold Config.loadConfig. cbv zeta.
    destruct (chosen_default env) as [(d & Ed & Hx & ->) | [-> Hno]];
      (destruct (negb _); [discriminate|]);
      (destruct (Config.instance_of _ _) as [i|] eqn:Ei; [|discriminate]);
      intros H; injection H as <-;
      cbn [Config.defaultInstance Config.instances] in *.
    - split; [exact Hx|]. split; [intros d' Hd' _; congruence|].
      split; [intros Hno; destruct (Hno d Ed Hx)|].
      exists i. exact Ei.
    - split; [left; reflexivity|].
      split; [intros d' Hd' Hin'; destruct (Hno d' Hd' Hin')|].
      split; [reflexivity|]. exists i. exact Ei. }
  split; [exact Hin|]. split; [exact Hd|]. split; [exact Hp|].
  pose proof Hi as Hl. rewrite (Hall _ Hin) in Hl.
  destruct (loadInstanceConfig_some env _ i Hl)
    as (u & n & w & Hu & Nu & Hn & Nn & Hw & Nw & ->).
  exists u, n, w. cbv zeta.
  repeat (split; [assumption|]).
  split.
  - unfold Config.getInstanceConfig. rewrite Hi. reflexivity.
  - intros S connect. unfold getClient. cbn [truthy].
    rewrite assoc_clients_of, Hi. reflexivity.
Qed.

(** X19. The default instance must itself be configured: when one of its three
    variables is unset or empty, loading fails, whatever other instances
    are configured; the error names the default instance unless no
    instance at all is configured. *)
Theorem loadConfig_fails_without_its_default (env : string -> option string)
    (d : string) :
  (env "SERVICENOW_DEFAULT_INSTANCE" = Some d /\ In d Config.names)
  \/ (d = "primary"
      /\ forall d', env "SERVICENOW_DEFAULT_INSTANCE" = Some d' ->
                    ~ In d' Config.names) ->
  Config.missing (env (Config.prefix_of d +++ "_URL")) = true
  \/ Config.missing (env (Config.prefix_of d +++ "_USERNAME")) = true
  \/ Config.missing (env (Config.prefix_of d +++ "_PASSWORD")) = true ->
  Config.loadConfig env
  = inl (if existsb (fun name =>
                       Config.is_configured
                         (Config.loadInstanceConfig env (Config.prefix_of name)))
                    Config.names
         then "Default instance " +++ dquote +++ d +++ dquote
              +++ " is not configured. Please configure it or change SERVICENOW_DEFAULT_INSTANCE."
         else "No ServiceNow instance configured. Please set SERVICENOW_INSTANCE_URL, SERVICENOW_USERNAME, and SERVICENOW_PASSWORD environment variables.").
Proof.
  intros Hd Hm.
  pose proof (loadInstanceConfig_none env _ Hm) as Hnone.
  assert (In d Config.names) as Hin.
  { destruct Hd as [[_ H] | [-> _]]; [exact H | left; reflexivity]. }
  assert (match env "SERVICENOW_DEFAULT_INSTANCE" with
          | Some d0 =>
              if truthy_string d0 && existsb (String.eqb d0) Config.names
              then d0 else "primary"
          | None => "primary"
          end = d) as Ed.
  { destruct (chosen_default env) as [(d0 & E0 & Hx & E) | [E Hno]];
      cbv zeta in E; rewrite E; clear E.
    - destruct Hd as [[E _] | [-> Hno]]; [congruence|].
      destruct (Hno d0 E0 Hx).
    - destruct Hd as [[E H] | [-> _]]; [|reflexivity].
      destruct (Hno d E H). }
  unfold Config.loadConfig. cbv zeta. rewrite Ed.
  change (existsb Config.is_configured
            [Config.loadInstanceConfig env "SERVICENOW_INSTANCE";
             Config.loadInstanceConfig env "SERVICENOW_DEV";
             Config.loadInstanceConfig env "SERVICENOW_TEST";
             Config.loadInstanceConfig env "SERVICENOW_PROD"])
    with (existsb (fun name =>
                     Config.is_configured
                       (Config.loadInstanceConfig env (Config.prefix_of name)))
                  Config.names).
  destruct (existsb _ Config.names); [|reflexivity].
  cbn [negb Config.instances].
  destruct Hin as [<- | [<- | [<- | [<- | []]]]];
    unfold Config.instance_of; cbn [String.eqb Ascii.eqb Bool.eqb
      Config.primary Config.dev Config.test Config.prod];
    change (Config.loadInstanceConfig env "SERVICENOW_INSTANCE")
      with (Config.loadInstanceConfig env (Config.prefix_of "primary")) in *;
    change (Config.loadInstanceConfig env "SERVICENOW_DEV")
      with (Config.loadInstanceConfig env (Config.prefix_of "dev")) in *;
    change (Config.loadInstanceConfig env "SERVICENOW_TEST")
      with (Config.loadInstanceConfig env (Config.prefix_of "test")) in *;
    change (Config.loadInstanceConfig env "SERVICENOW_PROD")
      with (Config.loadInstanceConfig env (Config.prefix_of "prod")) in *;
    rewrite Hnone; reflexivity.
Qed.

(** X20. The server has a client for exactly the instances the configuration
    knows.  Asking the server for the client of a name and asking the
    configuration for the instance of that name succeed together, on the
    client made from that instance, and fail together, with the same text.
    They part on the names of [Object.prototype] only: the configuration
    reads a plain object and returns the inherited value, where the
    server, which reads a map, throws that the instance is not
    configured. *)
Theorem getClient_and_getInstanceConfig (S : Type)
    (connect : Config.ServiceNowInstanceConfig -> Store S)
    (config : Config.ServiceNowConfig) (instanceName : option string) :
  getClient (clients_of connect config) (Config.defaultInstance config)
            match instanceName with Some n => VStr n | None => VUndefined end
  = match Config.getInstanceConfig config instanceName with
    | inr (Config.Instance instance) => inr (connect instance)
    | inr (Config.Inherited name) =>
        inl ("ServiceNow instance " +++ dquote +++ name +++ dquote
             +++ " is not configured. Available instances: "
             +++ join ", " (Config.available config))
    | inl e => inl e
    end.
Proof.
  unfold getClient, Config.getInstanceConfig.
  assert (forall n,
            match assoc n (clients_of connect config) with
            | Some c => inr c
            | None =>
                inl ("ServiceNow instance " +++ dquote +++ n +++ dquote
                     +++ " is not configured. Available instances: "
                     +++ join ", " (map fst (clients_of connect config)))
            end
            = match Config.instance_of (Config.instances config) n with
              | Some instance => inr (connect instance)
              | None =>
                  inl ("ServiceNow instance " +++ dquote +++ n +++ dquote
                       +++ " is not configured. Available instances: "
                       +++ join ", " (Config.available config))
              end) as K.
  { intros n. rewrite assoc_clients_of, clients_of_names.
    destruct (Config.instance_of _ n); reflexivity. }
  destruct instanceName as [n|]; cbn [truthy];
    [destruct (truthy_string n)|]; cbn [ToString]; rewrite K;
    (destruct (Config.instance_of _ _); [reflexivity|]);
    destruct (existsb _ Config.Object_prototype_names); reflexivity.
Qed.

(* ================================================================= *)
(** ** The delete tool before and after validation *)

(** X21. On every payload that the delete schema accepts, the delete tool as
    it was before validation is the same program as the validated one. *)
Theorem legacy_delete_agrees (args : jsval) (v : IncidentDeleteInput.t) :
  parse IncidentDeleteSchema args = Valid v ->
  legacy_incidentDelete args = Some (incidentDelete args).
Proof.
  intros H.
  destruct (IncidentDeleteSchema_valid args v H) as (Hid & _ & Hc).
  destruct args; try discriminate.
  unfold legacy_incidentDelete, incidentDelete.
  rewrite H, Hid, Hc. reflexivity.
Qed.

(** X22. Before validation the confirmation was a matter of truthiness.  A
    falsy [confirm] (absent, [false], 0, the empty string) gave the refusal
    as the tool's normal result, by no call.  A truthy [confirm] that is
    not [true] itself (1, a text) let the tool run exactly as the validated
    tool runs on [confirm: true], where the validated tool refuses the
    payload. *)
Theorem legacy_delete_confirmation_is_truthiness
    (entries : list (string * jsval)) (identifier : string) :
  prop "identifier" (VObj entries) = VStr identifier ->
  identifier <> "" ->
  (truthy (prop "confirm" (VObj entries)) = false ->
   legacy_incidentDelete (VObj entries)
   = Some (Ret "Error: Delete operation requires confirmation. Set confirm=true to proceed."))
  /\ (truthy (prop "confirm" (VObj entries)) = true ->
      legacy_incidentDelete (VObj entries)
      = Some (incidentDelete (VObj [("identifier", VStr identifier);
                                    ("confirm", VBool true)])))
  /\ (prop "confirm" (VObj entries) <> VBool true ->
      validates incident_delete (VObj entries) = false).
Proof.
  intros Hid Hne. split; [|split].
  - intros Hf. unfold legacy_incidentDelete. rewrite Hf. reflexivity.
  - intros Ht.
    assert (parse IncidentDeleteSchema
              (VObj [("identifier", VStr identifier); ("confirm", VBool true)])
            = Valid (IncidentDeleteInput.mk identifier true None)) as P.
    { destruct identifier; [congruence | reflexivity]. }
    unfold legacy_incidentDelete, incidentDelete.
    rewrite Ht, Hid, P. reflexivity.
  - intros Hc. unfold validates.
    destruct (parse IncidentDeleteSchema (VObj entries)) as [v|is0] eqn:E;
      [|reflexivity].
    destruct (IncidentDeleteSchema_valid _ v E) as (_ & _ & Hc').
    congruence.
Qed.

End Tools.

(* ================================================================= *)
(** ** The statements on concrete payloads *)

Lemma normalize_documented_codes_witness :
  normalize sample_defaultMessage state "In Progress" = Valid "2"
  /\ normalize sample_defaultMessage state "2" = Valid "2".
Proof.
  split; [reflexivity|].
  apply (proj2 (proj2 (normalize_documented_codes sample_defaultMessage))
           state "In Progress" "2").
  reflexivity.
Defined.

Lemma buildEncodedQuery_fragments_witness :
  let filter := [("state", Literal (SString "1"));
                 ("priority", Operator LTE (SNumber 3))] in
  1 <= List.length filter
  /\ buildEncodedQuery sample_Number_toString filter = "state=1^priority<=3"
  /\ count_char caret (buildEncodedQuery sample_Number_toString filter)
     = List.length filter - 1.
Proof.
  intros filter.
  assert (1 <= List.length filter) as Hn by (simpl; lia).
  split; [exact Hn|]. split; [reflexivity|].
  apply (buildEncodedQuery_fragments sample_Number_toString filter Hn).
  repeat constructor.
Defined.

(** C2, as stated, fails: a caret inside a value is not escaped, so a
    filter of one entry can serialize to a query that holds a caret. *)
Lemma caret_in_value_counterexample :
  let filter := [("short_description", Literal (SString "a^b"))] in
  parse (IncidentQuerySchema sample_defaultMessage)
    (VObj [("filter", VObj [("short_description", VStr "a^b")])])
  = Valid (IncidentQueryInput.mk (Some filter) 100%Q None None)
  /\ 1 <= List.length filter
  /\ buildEncodedQuery sample_Number_toString filter = "short_description=a^b"
  /\ count_char caret (buildEncodedQuery sample_Number_toString filter)
     <> List.length filter - 1.
Proof.
  intros filter. split; [reflexivity|]. split; [simpl; lia|].
  split; [reflexivity|]. vm_compute. discriminate.
Qed.

Lemma query_filter_parameter_witness :
  let args := VObj [("filter", VObj [])] in
  let v := IncidentQueryInput.mk (Some []) 100%Q None None in
  parse (IncidentQuerySchema sample_defaultMessage) args = Valid v
  /\ assoc "sysparm_query"
       (params (queryTable_request sample_Number_toString INCIDENT_TABLE
                  (Some []) (Some (options_of (Some 100%Q) None))))
     = Some (SString "").
Proof.
  intros args v.
  assert (parse (IncidentQuerySchema sample_defaultMessage) args = Valid v)
    as H by reflexivity.
  split; [exact H|].
  apply (query_filter_parameter sample_Number_toString
           sample_JSON_stringify_all sample_defaultMessage args v H).
  reflexivity.
Defined.

(** C3, as stated, fails: on the empty mapping the parameter is not left
    out; the request carries [sysparm_query] with the empty string. *)
Lemma empty_filter_counterexample :
  let args := VObj [("filter", VObj [])] in
  let options := options_of (Some 100%Q) None in
  calls (run sample_store
           (incidentQuery sample_JSON_stringify_all sample_defaultMessage args) tt)
  = [CallQueryTable INCIDENT_TABLE (Some []) options]
  /\ buildEncodedQuery sample_Number_toString [] = ""
  /\ params (queryTable_request sample_Number_toString INCIDENT_TABLE
               (Some []) (Some options))
     = [("sysparm_query", SString ""); ("sysparm_limit", SNumber 100)]
  /\ assoc "sysparm_query"
       (params (queryTable_request sample_Number_toString INCIDENT_TABLE
                  (Some []) (Some options)))
     <> None.
Proof.
  intros args options. split; [reflexivity|]. split; [reflexivity|].
  split; [reflexivity|]. vm_compute. discriminate.
Qed.

Lemma identifier_resolution_witness :
  let args := VObj [("identifier", VStr "INC0010001")] in
  let v := IncidentGetInput.mk "INC0010001" None None in
  parse (IncidentGetSchema sample_defaultMessage) args = Valid v
  /\ is_sys_id "INC0010001" = false
  /\ lookups (calls (run sample_store
                       (incidentGet sample_JSON_stringify sample_defaultMessage
                          args) tt))
     = [lookup_by_number "INC0010001" None].
Proof.
  intros args v.
  assert (parse (IncidentGetSchema sample_defaultMessage) args = Valid v)
    as H by reflexivity.
  assert (is_sys_id "INC0010001" = false) as Hid by reflexivity.
  split; [exact H|]. split; [exact Hid|].
  exact (proj1 (proj2 (proj2
    (proj1 (proj2 (identifier_resolution sample_JSON_stringify
                     sample_defaultMessage))
       args v unit sample_store tt H)) Hid)).
Defined.

Lemma delete_requires_confirm_witness :
  let args := VObj [("identifier", VStr "INC0010001")] in
  let confirmed := VObj [("identifier", VStr "INC0010001");
                         ("confirm", VBool true)] in
  prop "confirm" args = VUndefined
  /\ run sample_store (incidentDelete sample_defaultMessage args) tt
     = failed_before_any_call tt
         (formatValidationError
            (validation sample_defaultMessage incident_delete args))
  /\ prop "confirm" confirmed = VBool true
  /\ exists v,
       parse (IncidentDeleteSchema sample_defaultMessage) confirmed = Valid v
       /\ calls (run sample_store
                   (incidentDelete sample_defaultMessage confirmed) tt)
          = [lookup_by_number "INC0010001" (Some ["sys_id"; "number"]);
             CallDeleteRecord INCIDENT_TABLE (sys_id sample_incident)].
Proof.
  intros args confirmed.
  assert (prop "confirm" args = VUndefined) as H by reflexivity.
  assert (prop "confirm" confirmed = VBool true) as Ht by reflexivity.
  split; [exact H|]. split.
  - exact (proj2 (proj2 (proj1 (delete_requires_confirm sample_defaultMessage)
                           args (or_introl H)))
             unit sample_store tt).
  - split; [exact Ht|].
    destruct (proj2 (proj2 (delete_requires_confirm sample_defaultMessage)
                       confirmed Ht)
                "INC0010001" eq_refl
                ltac:(discriminate) (or_introl eq_refl))
      as (v & Hv & _ & _ & Hrun).
    exists v. split; [exact Hv|].
    exact (proj2 (proj2 (Hrun unit sample_store tt) eq_refl)
             sample_incident [] tt eq_refl).
Defined.

Lemma query_limit_default_and_bounds_witness :
  let args := VObj [("filter", VObj [("state", VStr "1")])] in
  let v := IncidentQueryInput.mk (Some [("state", Literal (SString "1"))])
             100%Q None None in
  parse (IncidentQuerySchema sample_defaultMessage) args = Valid v
  /\ prop "limit" args = VUndefined
  /\ IncidentQueryInput.limit v = 100%Q.
Proof.
  intros args v.
  assert (parse (IncidentQuerySchema sample_defaultMessage) args = Valid v)
    as H by reflexivity.
  assert (prop "limit" args = VUndefined) as Hl by reflexivity.
  split; [exact H|]. split; [exact Hl|].
  exact (proj1 (query_limit_default_and_bounds sample_defaultMessage) args v H Hl).
Defined.



Lemma zero_records_are_a_normal_result_witness :
  let args := VObj [("identifier", VStr "INC0099999")] in
  let v := IncidentGetInput.mk "INC0099999" None None in
  parse (IncidentGetSchema sample_defaultMessage) args = Valid v
  /\ is_sys_id "INC0099999" = false
  /\ outcome (run sample_store
                (incidentGet sample_JSON_stringify sample_defaultMessage args) tt)
     = Returned (not_found_text "INC0099999").
Proof.
  intros args v.
  assert (parse (IncidentGetSchema sample_defaultMessage) args = Valid v)
    as H by reflexivity.
  assert (is_sys_id "INC0099999" = false) as Hid by reflexivity.
  split; [exact H|]. split; [exact Hid|].
  exact (proj2 (proj2 (proj2 (proj2
    (zero_records_are_a_normal_result sample_JSON_stringify
       sample_JSON_stringify_all sample_defaultMessage)))
    args v unit sample_store tt tt H Hid eq_refl)).
Defined.

(** C9 on the tool as it was before validation: an [instance] of the
    arguments is forwarded to the store inside the update data, where the
    validated tool, on the same arguments, leaves it out. *)
Theorem legacy_update_forwards_instance :
  let key := "0123456789abcdef0123456789abcdef" in
  let args := VObj [("identifier", VStr key); ("state", VStr "2");
                    ("instance", VStr "dev")] in
  option_map (fun p => calls (run sample_store p tt))
    (legacy_incidentUpdate sample_JSON_stringify args)
  = Some [CallUpdateRecord INCIDENT_TABLE key
            [("state", VStr "2"); ("instance", VStr "dev")]]
  /\ calls (run sample_store
              (incidentUpdate sample_JSON_stringify sample_defaultMessage args) tt)
     = [CallUpdateRecord INCIDENT_TABLE key [("state", VStr "2")]].
Proof. split; reflexivity. Qed.

Lemma legacy_get_agrees_witness :
  let args := VObj [("identifier", VStr "INC0010001");
                    ("fields", VArr [VStr "number"; VStr "state"])] in
  let v := IncidentGetInput.mk "INC0010001" (Some ["number"; "state"]) None in
  parse (IncidentGetSchema sample_defaultMessage) args = Valid v
  /\ legacy_incidentGet sample_JSON_stringify args
     = Some (incidentGet sample_JSON_stringify sample_defaultMessage args).
Proof.
  intros args v.
  assert (parse (IncidentGetSchema sample_defaultMessage) args = Valid v)
    as H by reflexivity.
  split; [exact H|].
  exact (proj1 (legacy_get_agrees sample_JSON_stringify sample_defaultMessage
                  args v H)).
Defined.

(* ================================================================= *)
(** ** The scenarios of the specification *)

Example scenario_priority_at_most_3 :
  buildEncodedQuery sample_Number_toString
    [("priority", Operator LTE (SString "3"))]
  = "priority<=3".
Proof. reflexivity. Qed.

Example scenario_create_normalizes_priority :
  calls (run sample_store
           (incidentCreate sample_JSON_stringify sample_defaultMessage
              (VObj [("short_description", VStr "X");
                     ("priority", VStr "Critical")])) tt)
  = [CallCreateRecord INCIDENT_TABLE
       [("short_description", VStr "X"); ("priority", VStr "1")]].
Proof. reflexivity. Qed.

Example scenario_get_by_number :
  run sample_store
    (incidentGet sample_JSON_stringify sample_defaultMessage
       (VObj [("identifier", VStr "INC0010001")])) tt
  = {| calls := [lookup_by_number "INC0010001" None];
       outcome := Returned ("Incident Details:" +++ nl +++ nl
                            +++ sample_JSON_stringify sample_incident);
       final := tt |}.
Proof. reflexivity. Qed.

(* ================================================================= *)
(** ** The further properties on concrete payloads *)

Lemma buildEncodedQuery_app_witness :
  let f1 := [("state", Literal (SString "1"))] in
  let f2 := [("priority", Operator LTE (SNumber 3));
             ("active", Literal (SBoolean true))] in
  buildEncodedQuery sample_Number_toString (f1 ++ f2)
  = buildEncodedQuery sample_Number_toString f1 +++ "^"
    +++ buildEncodedQuery sample_Number_toString f2.
Proof.
  intros f1 f2.
  apply (buildEncodedQuery_app sample_Number_toString f1 f2); discriminate.
Defined.

Lemma filter_is_passed_unchanged_witness :
  let f := [("priority", Operator LTE (SString "3"));
            ("active", Literal (SBoolean true))] in
  filter_object f
  = VObj [("priority", VObj [("operator", VStr "<="); ("value", VStr "3")]);
          ("active", VBool true)]
  /\ parse (IncidentQuerySchema sample_defaultMessage)
       (VObj [("filter", filter_object f)])
     = Valid (IncidentQueryInput.mk (Some f) 100%Q None None).
Proof.
  intros f. split; [reflexivity|].
  apply (filter_is_passed_unchanged sample_JSON_stringify_all
           sample_defaultMessage f).
  repeat constructor; discriminate.
Defined.

Lemma create_data_named_fields_witness :
  let args := VObj [("short_description", VStr "Printer down");
                    ("priority", VStr "High");
                    ("instance", VStr "dev")] in
  exists v,
    parse (IncidentCreateSchema sample_defaultMessage) args = Valid v
    /\ assoc "instance" (incidentData_of v) = None
    /\ assoc "priority" (incidentData_of v) = Some (VStr "2").
Proof.
  intros args. eexists. split; [reflexivity|]. split; [|reflexivity].
  refine (proj1 (proj2 (proj2
    (create_data_named_fields sample_JSON_stringify sample_defaultMessage
       args _ _)))).
  reflexivity.
Defined.

Lemma classification_fields_are_sent_as_codes_witness :
  let args := VObj [("identifier", VStr "INC0010001");
                    ("state", VStr "Resolved")] in
  (exists raw,
     prop "state" args = VStr raw
     /\ normalize sample_defaultMessage (kind_of_field "state") raw = Valid "6")
  /\ In "6" (codes_of "state").
Proof.
  intros args.
  refine (proj1 (classification_fields_are_sent_as_codes
                   sample_JSON_stringify sample_defaultMessage)
            args _ unit sample_store tt _ _ _ "state" "6" _ _ _ _).
  - reflexivity.
  - right. left. reflexivity.
  - left. reflexivity.
  - reflexivity.
Defined.

Lemma unknown_fields_are_forwarded_witness :
  let entries := [("short_description", VStr "Printer down");
                  ("location", VStr "HQ")] in
  exists data,
    calls (run sample_store
             (incidentCreate sample_JSON_stringify sample_defaultMessage
                (VObj entries)) tt)
    = [CallCreateRecord INCIDENT_TABLE data]
    /\ assoc "location" data = Some (VStr "HQ").
Proof.
  intros entries. eexists. split; [reflexivity|].
  refine (proj2 (unknown_fields_are_forwarded
                   sample_JSON_stringify sample_defaultMessage)
            entries _ unit sample_store tt _ _ "location" _ _ _ _).
  - reflexivity.
  - left. reflexivity.
  - reflexivity.
  - discriminate.
Defined.

Lemma delete_only_what_was_resolved_witness :
  let args := VObj [("identifier", VStr "INC0010001");
                    ("confirm", VBool true)] in
  In (CallDeleteRecord INCIDENT_TABLE (sys_id sample_incident))
     (calls (run sample_store (incidentDelete sample_defaultMessage args) tt))
  /\ prop "confirm" args = VBool true.
Proof.
  intros args.
  assert (In (CallDeleteRecord INCIDENT_TABLE (sys_id sample_incident))
             (calls (run sample_store
                       (incidentDelete sample_defaultMessage args) tt))) as H.
  { right. left. reflexivity. }
  split; [exact H|].
  exact (proj1 (proj2 (delete_only_what_was_resolved sample_defaultMessage
                         args unit sample_store tt _ _ H))).
Defined.

Lemma non_object_payload_is_one_unprefixed_line_witness :
  handler sample_JSON_stringify sample_JSON_stringify_all sample_defaultMessage
          incident_get VNull
  = Throw ("Validation Error:" +++ nl +++ "  - "
           +++ sample_defaultMessage (invalid_type "object") VNull).
Proof.
  apply (non_object_payload_is_one_unprefixed_line sample_JSON_stringify
           sample_JSON_stringify_all sample_defaultMessage incident_get VNull).
  intros entries. discriminate.
Defined.

Lemma fields_issue_points_at_the_element_witness :
  let entries := [("identifier", VStr "INC0010001");
                  ("fields", VArr [VStr "number"; VNum 5%Q])] in
  exists issue,
    In issue (validation sample_defaultMessage incident_get (VObj entries))
    /\ path issue = [Key "fields"; Index 1]
    /\ report_line issue = "  - fields." +++ nat_text 1 +++ ": " +++ message issue.
Proof.
  intros entries.
  apply (fields_issue_points_at_the_element sample_defaultMessage entries
           [VStr "number"; VNum 5%Q] 1 (VNum 5%Q)).
  - reflexivity.
  - reflexivity.
  - intros str. discriminate.
Defined.

Lemma query_request_always_has_a_limit_witness :
  let args := VObj [("limit", VNum 25%Q)] in
  let v := IncidentQueryInput.mk None 25%Q None None in
  parse (IncidentQuerySchema sample_defaultMessage) args = Valid v
  /\ assoc "sysparm_limit"
       (params (queryTable_request sample_Number_toString INCIDENT_TABLE None
                  (Some (options_of (Some 25%Q) None))))
     = Some (SNumber 25%Q).
Proof.
  intros args v.
  assert (parse (IncidentQuerySchema sample_defaultMessage) args = Valid v)
    as H by reflexivity.
  split; [exact H|].
  exact (proj1 (proj2 (query_request_always_has_a_limit sample_Number_toString
                         sample_defaultMessage args v H))).
Defined.

Lemma unconfigured_instance_is_answered_before_validation_witness :
  let generic := fun (_ : jsval) (s : unit) =>
                   {| calls := []; outcome := Rejected "not used"; final := s |} in
  let args := VObj [("instance", VStr "dev")] in
  callTool sample_Number_toString generic generic
    (handler sample_JSON_stringify sample_JSON_stringify_all sample_defaultMessage)
    [("primary", sample_store)] "primary" "incident_delete" args tt
  = {| calls := [];
       outcome :=
         Returned {| text := "Error: ServiceNow instance " +++ dquote +++ "dev"
                             +++ dquote
                             +++ " is not configured. Available instances: primary";
                     isError := true |};
       final := tt |}.
Proof.
  intros generic args.
  apply (unconfigured_instance_is_answered_before_validation
           sample_Number_toString unit generic generic
           (handler sample_JSON_stringify sample_JSON_stringify_all
              sample_defaultMessage)
           [("primary", sample_store)] "primary" "incident_delete"
           incident_delete args "dev" tt).
  - reflexivity.
  - reflexivity.
  - discriminate.
  - reflexivity.
Defined.

Lemma dispatch_runs_the_tool_on_the_chosen_instance_witness :
  let generic := fun (_ : jsval) (s : unit) =>
                   {| calls := []; outcome := Rejected "not used"; final := s |} in
  let args := VObj [("identifier", VStr "INC0010001")] in
  let tools := handler sample_JSON_stringify sample_JSON_stringify_all
                       sample_defaultMessage in
  calls (callTool sample_Number_toString generic generic tools
           [("primary", sample_store)] "primary" "incident_get" args tt)
  = calls (run sample_store (tools incident_get args) tt).
Proof.
  intros generic args tools.
  refine (proj1 (dispatch_runs_the_tool_on_the_chosen_instance
                   sample_Number_toString unit generic generic tools
                   [("primary", sample_store)] "primary" "incident_get"
                   incident_get args sample_store tt _ _)).
  - reflexivity.
  - left. split; reflexivity.
Defined.


Lemma loaded_config_serves_its_default_witness :
  let config :=
    {| Config.instances :=
         {| Config.primary :=
              Some {| Config.url := "https://dev12345.service-now.com";
                      Config.username := "admin";
                      Config.password := "secret" |};
            Config.dev := None; Config.test := None; Config.prod := None |};
       Config.defaultInstance := "primary" |} in
  Config.loadConfig Config.sample_env = inr config
  /\ In (Config.defaultInstance config) Config.names.
Proof.
  intros config.
  assert (Config.loadConfig Config.sample_env = inr config) as H
    by reflexivity.
  split; [exact H|].
  exact (proj1 (loaded_config_serves_its_default sample_Number_toString
                  Config.sample_env config H)).
Defined.

Lemma loadConfig_fails_without_its_default_witness :
  let env := fun k =>
               if String.eqb k "SERVICENOW_DEV_URL" then Some "https://dev.example.com"
               else if String.eqb k "SERVICENOW_DEV_USERNAME" then Some "admin"
               else if String.eqb k "SERVICENOW_DEV_PASSWORD" then Some "secret"
               else None in
  Config.loadConfig env
  = inl ("Default instance " +++ dquote +++ "primary" +++ dquote
         +++ " is not configured. Please configure it or change SERVICENOW_DEFAULT_INSTANCE.").
Proof.
  intros env.
  apply (loadConfig_fails_without_its_default env "primary").
  - right. split; [reflexivity|]. intros d' H. discriminate.
  - left. reflexivity.
Defined.

Lemma legacy_delete_agrees_witness :
  let args := VObj [("identifier", VStr "INC0010001");
                    ("confirm", VBool true)] in
  let v := IncidentDeleteInput.mk "INC0010001" true None in
  parse (IncidentDeleteSchema sample_defaultMessage) args = Valid v
  /\ legacy_incidentDelete args
     = Some (incidentDelete sample_defaultMessage args).
Proof.
  intros args v.
  assert (parse (IncidentDeleteSchema sample_defaultMessage) args = Valid v)
    as H by reflexivity.
  split; [exact H|].
  exact (legacy_delete_agrees sample_defaultMessage args v H).
Defined.

Lemma legacy_delete_confirmation_is_truthiness_witness :
  let entries := [("identifier", VStr "INC0010001"); ("confirm", VStr "yes")] in
  legacy_incidentDelete (VObj entries)
  = Some (incidentDelete sample_defaultMessage
            (VObj [("identifier", VStr "INC0010001"); ("confirm", VBool true)]))
  /\ validates sample_defaultMessage incident_delete (VObj entries) = false.
Proof.
  intros entries.
  destruct (legacy_delete_confirmation_is_truthiness sample_defaultMessage
              entries "INC0010001" eq_refl ltac:(discriminate))
    as (_ & Ht & Hv).
  split; [apply Ht; reflexivity | apply Hv; discriminate].
Defined.


Lemma getClient_and_getInstanceConfig_witness :
  let config :=
    {| Config.instances :=
         {| Config.primary :=
              Some {| Config.url := "https://dev12345.service-now.com";
                      Config.username := "admin";
                      Config.password := "secret" |};
            Config.dev := None; Config.test := None; Config.prod := None |};
       Config.defaultInstance := "primary" |} in
  Config.getInstanceConfig config (Some "toString")
  = inr (Config.Inherited "toString")
  /\ getClient sample_Number_toString
       (clients_of (fun _ => sample_store) config) "primary" (VStr "toString")
     = inl ("ServiceNow instance " +++ dquote +++ "toString" +++ dquote
            +++ " is not configured. Available instances: primary")
  /\ Config.getInstanceConfig config (Some "dev")
     = inl ("ServiceNow instance " +++ dquote +++ "dev" +++ dquote
            +++ " is not configured. Available instances: primary")
  /\ getClient sample_Number_toString
       (clients_of (fun _ => sample_store) config) "primary" (VStr "dev")
     = inl ("ServiceNow instance " +++ dquote +++ "dev" +++ dquote
            +++ " is not configured. Available instances: primary").
Proof.
  intros config. split; [reflexivity|]. split; [|split; [reflexivity|]].
  - exact (getClient_and_getInstanceConfig sample_Number_toString unit
             (fun _ => sample_store) config (Some "toString")).
  - exact (getClient_and_getInstanceConfig sample_Number_toString unit
             (fun _ => sample_store) config (Some "dev")).
Defined.
